(** * Taproot commitment and spend engine (src/service.js)

    A shallow embedding of the helpers and spend functions of the service
    module: tagged leaf and branch hashes, the Merkle reduction, the control
    block for a leaf index, the private-key tweak, and the three spend
    builders.  Buffers are lists of bytes, JavaScript numbers that are used
    as integers are [Z], a value that may be [undefined] is an [option], and
    a function that can throw returns a [result].

    The collaborators the module requires from other packages
    (bitcoinjs-lib, tiny-secp256k1, the RPC client) are interfaces here;
    every theorem holds for all their implementations.  [Sha256] and
    [Fixture] give instances on which the definitions can be run. *)

From Stdlib Require Import String.
From Stdlib Require Import List ZArith NArith Bool Lia.
From Stdlib.Strings Require Import Byte.
From Equations Require Import Equations.
Import ListNotations.

Set Implicit Arguments.

(** ** Buffers *)

Definition Buffer := list byte.

Definition byte_of_N (n : N) : byte :=
  match Byte.of_N (n mod 256) with Some b => b | None => x00 end.

(** [Buffer.from([n, ...])]: every number is taken modulo 256. *)
Definition Buffer_from (l : list Z) : Buffer :=
  map (fun n => byte_of_N (Z.to_N (n mod 256))) l.

(** [buf.slice(start, end)] for [0 <= start <= end]. *)
Definition slice (start stop : nat) (b : Buffer) : Buffer :=
  firstn (stop - start) (skipn start b).

(** [Buffer.compare(a, b)]: unsigned bytewise lexicographic order, a proper
    prefix being smaller; the result is -1, 0 or 1. *)
Fixpoint Buffer_compare (a b : Buffer) : Z :=
  match a, b with
  | [], [] => 0
  | [], _ :: _ => -1
  | _ :: _, [] => 1
  | x :: a', y :: b' =>
      match N.compare (Byte.to_N x) (Byte.to_N y) with
      | Lt => -1
      | Gt => 1
      | Eq => Buffer_compare a' b'
      end
  end.

(** [arr[i]] for an integer [i]: [undefined] outside the array. *)
Definition js_index {A : Type} (l : list A) (i : Z) : option A :=
  if (i <? 0)%Z then None else nth_error l (Z.to_nat i).

(** [Buffer.from(s, 'hex')]: decoding stops at the first pair that is not
    two hexadecimal digits. *)
Definition hex_digit (c : Ascii.ascii) : option N :=
  let n := Ascii.N_of_ascii c in
  if ((48 <=? n) && (n <=? 57))%N then Some (n - 48)%N
  else if ((97 <=? n) && (n <=? 102))%N then Some (n - 87)%N
  else if ((65 <=? n) && (n <=? 70))%N then Some (n - 55)%N
  else None.

Fixpoint Buffer_from_hex (s : string) : Buffer :=
  match s with
  | String h (String l rest) =>
      match hex_digit h, hex_digit l with
      | Some a, Some b => byte_of_N (16 * a + b) :: Buffer_from_hex rest
      | _, _ => []
      end
  | _ => []
  end.

(** ** Thrown errors *)

Inductive exn : Type :=
| Error (msg : string)
| TypeError (msg : string)
| RpcError (msg : string).

Definition result (A : Type) : Type := (exn + A)%type.

Definition ret {A : Type} (a : A) : result A := inr a.
Definition throw {A : Type} (e : exn) : result A := inl e.
Definition bind {A B : Type} (c : result A) (k : A -> result B) : result B :=
  match c with
  | inl e => inl e
  | inr a => k a
  end.

Notation "x <- c ;; k" := (bind c (fun x => k))
  (at level 61, c at next level, right associativity).

(** [Buffer.concat(list)]: a [TypeError] when an element is [undefined]. *)
Fixpoint Buffer_concat (l : list (option Buffer)) : result Buffer :=
  match l with
  | [] => ret []
  | None :: _ =>
      throw (TypeError "list argument must be an instance of Buffer or Uint8Array")
  | Some b :: rest => r <- Buffer_concat rest ;; ret (b ++ r)
  end.

(** ** SHA-256 and the tagged hash of bitcoinjs-lib

    [bitcoin.crypto.taggedHash(tag, msg)] is
    SHA256(SHA256(tag) || SHA256(tag) || msg); the instance below is used to
    evaluate the definitions, the theorems quantify over the interface. *)

Module Sha256.

Local Open Scope N_scope.

Definition wrap32 (x : N) : N := x mod 0x100000000.
Definition add32 (x y : N) : N := wrap32 (x + y).
Definition not32 (x : N) : N := N.lxor x 0xffffffff.
Definition rotr (n x : N) : N :=
  N.lor (N.shiftr x n) (wrap32 (N.shiftl x (32 - n))).

Definition Ch (x y z : N) : N := N.lxor (N.land x y) (N.land (not32 x) z).
Definition Maj (x y z : N) : N :=
  N.lxor (N.lxor (N.land x y) (N.land x z)) (N.land y z).
Definition Sigma0 (x : N) : N := N.lxor (N.lxor (rotr 2 x) (rotr 13 x)) (rotr 22 x).
Definition Sigma1 (x : N) : N := N.lxor (N.lxor (rotr 6 x) (rotr 11 x)) (rotr 25 x).
Definition sigma0 (x : N) : N := N.lxor (N.lxor (rotr 7 x) (rotr 18 x)) (N.shiftr x 3).
Definition sigma1 (x : N) : N := N.lxor (N.lxor (rotr 17 x) (rotr 19 x)) (N.shiftr x 10).

(** The constants of FIPS 180-4: the first 32 bits of the fractional parts
    of the cube roots of the first 64 primes (round constants) and of the
    square roots of the first 8 primes (initial state). *)
Definition is_prime (n : N) : bool :=
  forallb (fun d => negb (n mod d =? 0))
          (map N.of_nat (seq 2 (N.to_nat n - 2))).

Definition primes : list N := filter is_prime (map N.of_nat (seq 2 310)).

Fixpoint cube_root (bits : nat) (x r : N) : N :=
  match bits with
  | O => r
  | S b =>
      let c := r + N.shiftl 1 (N.of_nat b) in
      cube_root b x (if c * c * c <=? x then c else r)
  end.

Definition frac_cbrt (p : N) : N := wrap32 (cube_root 36 (N.shiftl p 96) 0).
Definition frac_sqrt (p : N) : N := wrap32 (N.sqrt (N.shiftl p 64)).

Definition K : list N := Eval vm_compute in map frac_cbrt primes.

Record state : Type :=
  St { ha : N; hb : N; hc : N; hd : N; he : N; hf : N; hg : N; hh : N }.

Definition init : state :=
  Eval vm_compute in
    match map frac_sqrt (firstn 8 primes) with
    | [a; b; c; d; e; f; g; h] => St a b c d e f g h
    | _ => St 0 0 0 0 0 0 0 0
    end.

Definition round (s : state) (kw : N * N) : state :=
  let t1 := add32 (add32 (add32 (add32 (hh s) (Sigma1 (he s)))
                                (Ch (he s) (hf s) (hg s))) (fst kw)) (snd kw) in
  let t2 := add32 (Sigma0 (ha s)) (Maj (ha s) (hb s) (hc s)) in
  St (add32 t1 t2) (ha s) (hb s) (hc s) (add32 (hd s) t1) (he s) (hf s) (hg s).

(** The message schedule: [n] more words after the ones in [w]. *)
Fixpoint schedule (n : nat) (w : list N) : list N :=
  match n with
  | O => w
  | S n' =>
      let t := List.length w in
      let back k := nth (t - k) w 0 in
      schedule n' (w ++ [add32 (add32 (add32 (sigma1 (back 2%nat)) (back 7%nat))
                                      (sigma0 (back 15%nat))) (back 16%nat)])
  end.

Fixpoint words (bs : list byte) : list N :=
  match bs with
  | b3 :: b2 :: b1 :: b0 :: rest =>
      (Byte.to_N b3 * 0x1000000 + Byte.to_N b2 * 0x10000
       + Byte.to_N b1 * 0x100 + Byte.to_N b0) :: words rest
  | _ => []
  end.

Definition compress (s : state) (block : list byte) : state :=
  let w := schedule 48 (words block) in
  let r := fold_left round (combine K w) s in
  St (add32 (ha s) (ha r)) (add32 (hb s) (hb r)) (add32 (hc s) (hc r))
     (add32 (hd s) (hd r)) (add32 (he s) (he r)) (add32 (hf s) (hf r))
     (add32 (hg s) (hg r)) (add32 (hh s) (hh r)).

Definition be32 (x : N) : list byte :=
  [byte_of_N (N.shiftr x 24); byte_of_N (N.shiftr x 16);
   byte_of_N (N.shiftr x 8); byte_of_N x].

Definition be64 (x : N) : list byte := be32 (N.shiftr x 32) ++ be32 x.

Definition pad (msg : list byte) : list byte :=
  let len := List.length msg in
  let zeros := Nat.modulo (64 - Nat.modulo (len + 9) 64) 64 in
  msg ++ [x80] ++ repeat x00 zeros ++ be64 (8 * N.of_nat len).

Fixpoint blocks (n : nat) (s : state) (bs : list byte) : state :=
  match n with
  | O => s
  | S n' => blocks n' (compress s (firstn 64 bs)) (skipn 64 bs)
  end.

Definition digest (s : state) : list byte :=
  be32 (ha s) ++ be32 (hb s) ++ be32 (hc s) ++ be32 (hd s) ++
  be32 (he s) ++ be32 (hf s) ++ be32 (hg s) ++ be32 (hh s).

Definition sha256 (msg : list byte) : list byte :=
  let p := pad msg in
  digest (blocks (Nat.div (List.length p) 64) init p).

Definition taggedHash (tag : string) (msg : list byte) : list byte :=
  let t := sha256 (list_byte_of_string tag) in
  sha256 (t ++ t ++ msg).

End Sha256.

(** ** Collaborators *)

(** [bitcoin.crypto]: the tagged hash. *)
Class Crypto : Type :=
  { taggedHash : string -> Buffer -> Buffer }.

(** [tiny-secp256k1].  [privateAdd] and [pointFromScalar] answer [null]
    (here [None]) on a degenerate result and throw on arguments they do not
    accept; [signSchnorr] may throw. *)
Class Ecc : Type :=
  { privateAdd : Buffer -> Buffer -> result (option Buffer);
    pointFromScalar : Buffer -> bool -> result (option Buffer);
    signSchnorr : Buffer -> Buffer -> result Buffer }.

(** [(pub[0] === 0x03) ? 1 : 0]. *)
Definition keyParity (pub : Buffer) : Z :=
  match nth_error pub 0 with
  | Some x03 => 1
  | _ => 0
  end.

(** ** Tagged hashes of leaves and branches *)

Section Commitment.

Context {crypto : Crypto}.

(** The message the leaf hash commits to: [Buffer.concat([Buffer.from([0xc0]),
    scriptBuffer])]. *)
Definition tapLeafMessage (scriptBuffer : Buffer) : Buffer :=
  Buffer_from [0xc0%Z] ++ scriptBuffer.

Definition tapLeafHash (scriptBuffer : Buffer) : Buffer :=
  taggedHash "TapLeaf" (tapLeafMessage scriptBuffer).

Definition tapBranchHash (a b : Buffer) : Buffer :=
  if (Buffer_compare a b =? -1)%Z
  then taggedHash "TapBranch" (a ++ b)
  else taggedHash "TapBranch" (b ++ a).

(** One pass of the inner [for (i = 0; i < layer.length; i += 2)] loop:
    adjacent hashes are paired, an unpaired last hash is carried over. *)
Fixpoint nextLayer (layer : list Buffer) : list Buffer :=
  match layer with
  | a :: b :: rest => tapBranchHash a b :: nextLayer rest
  | [a] => [a]
  | [] => []
  end.

Lemma nextLayer_length_le (layer : list Buffer) :
  (length (nextLayer layer) <= length layer)%nat.
Proof.
  induction layer as [layer IH] using (well_founded_induction
    (well_founded_ltof _ (@length Buffer))).
  destruct layer as [|a [|b rest]]; simpl; auto.
  assert (H : (length (nextLayer rest) <= length rest)%nat)
    by (apply IH; unfold ltof; simpl; lia).
  lia.
Qed.

(** [while (current.length > 1) { ...; current = next; }]: the value of
    [current] when the loop ends. *)
Equations? reduceLayers (current : list Buffer) : list Buffer
  by wf (length current) lt :=
  reduceLayers (a :: b :: rest) := reduceLayers (nextLayer (a :: b :: rest));
  reduceLayers current := current.
Proof.
  pose proof (nextLayer_length_le rest). simpl. lia.
Qed.

(** The result is [current[0]], which would be [undefined] (here [None]) on
    an empty array. *)
Definition computeMerkleRootFromLeafHashes (leafHashArr : list Buffer)
  : option Buffer :=
  if (length leafHashArr =? 0)%nat then Some (Buffer_from [])
  else js_index (reduceLayers leafHashArr) 0.

Definition computeMerkleRoot (scriptLeaves : list Buffer) : option Buffer :=
  let leafHashes := map tapLeafHash scriptLeaves in
  if (length leafHashes =? 1)%nat then Some []
  else computeMerkleRootFromLeafHashes leafHashes.

(** ** Control block *)

(** The [while (layer.length > 1)] loop of [computeControlBlockForIndex]:
    the path recorded when the loop ends.  The sibling pushed may be
    [undefined] when [pairIndex] is negative. *)
Equations? siblingPath (idx : Z) (layer : list Buffer)
    (path : list (option Buffer)) : list (option Buffer)
  by wf (length layer) lt :=
  siblingPath idx (a :: b :: rest) path :=
    let layer := a :: b :: rest in
    let pairIndex := (if Z.rem idx 2 =? 0 then idx + 1 else idx - 1)%Z in
    let path' :=
      if (pairIndex <? Z.of_nat (length layer))%Z
      then path ++ [js_index layer pairIndex]
      else path in
    siblingPath (idx / 2)%Z (nextLayer layer) path';
  siblingPath idx layer path := path.
Proof.
  pose proof (nextLayer_length_le rest). simpl. lia.
Qed.

Definition computeControlBlockForIndex (internalPubkeyFull : Buffer)
    (scriptLeaves : list Buffer) (targetIndex : Z) : result Buffer :=
  if negb (length internalPubkeyFull =? 33)%nat
  then throw (Error "internalPubkeyFull must be 33-byte compressed public key")
  else
    let internalX := slice 1 33 internalPubkeyFull in
    let parity := keyParity internalPubkeyFull in
    let leafHashes := map tapLeafHash scriptLeaves in
    if (length leafHashes =? 1)%nat
    then Buffer_concat [Some (Buffer_from [Z.lor 0xc0 parity]); Some internalX]
    else
      let path := siblingPath targetIndex leafHashes [] in
      Buffer_concat
        ([Some (Buffer_from [Z.lor 0xc0 parity]); Some internalX] ++ path).

End Commitment.

(** ** Key tweak *)

Record TweakedKeyMaterial : Type :=
  { tweakedPriv : Buffer;
    tweakedPub : Buffer;
    tweakedX : Buffer;
    parity : Z }.

Section KeyTweak.

Context {crypto : Crypto} {ecc : Ecc}.

(** [merkleRoot] may be [undefined]: [merkleRoot || Buffer.alloc(0)] (a
    Buffer, even an empty one, is truthy). *)
Definition tweakPrivateKey (privKey32 internalPubkeyX : Buffer)
    (merkleRoot : option Buffer) : result TweakedKeyMaterial :=
  if negb (length privKey32 =? 32)%nat
  then throw (Error "privKey must be 32 bytes")
  else if negb (length internalPubkeyX =? 32)%nat
  then throw (Error "internalPubkeyX must be 32 bytes")
  else
    let merkleRoot := match merkleRoot with Some r => r | None => [] end in
    let t := taggedHash "TapTweak" (internalPubkeyX ++ merkleRoot) in
    ok <- privateAdd privKey32 t ;;
    match ok with
    | None => throw (Error "tweak resulted in invalid private key (unlikely)")
    | Some tweaked =>
        pub <- pointFromScalar tweaked true ;;
        match pub with
        | None => throw (Error "failed to compute tweaked pubkey")
        | Some pub =>
            ret {| tweakedPriv := tweaked;
                   tweakedPub := pub;
                   tweakedX := slice 1 33 pub;
                   parity := keyParity pub |}
        end
    end.

End KeyTweak.

(** ** Transactions and spends *)

Record TxInput : Type :=
  { prevHash : Buffer;
    prevIndex : Z;
    sequence : Z;
    witness : list (option Buffer) }.

Record TxOutput : Type :=
  { script : Buffer;
    amount : Z }.

Record Transaction : Type :=
  { version : Z;
    locktime : Z;
    ins : list TxInput;
    outs : list TxOutput }.

(** [new bitcoin.Transaction()]. *)
Definition newTransaction : Transaction :=
  {| version := 1; locktime := 0; ins := []; outs := [] |}.

Definition setVersion (tx : Transaction) (v : Z) : Transaction :=
  {| version := v; locktime := locktime tx; ins := ins tx; outs := outs tx |}.

Definition setLocktime (tx : Transaction) (l : Z) : Transaction :=
  {| version := version tx; locktime := l; ins := ins tx; outs := outs tx |}.

(** The transaction after a call of [tx.addInput], of [tx.addOutput] or of
    [tx.setWitness(0, w)] that returned. *)
Definition pushInput (tx : Transaction) (hash : Buffer) (index seq : Z)
  : Transaction :=
  {| version := version tx; locktime := locktime tx;
     ins := ins tx ++ [{| prevHash := hash; prevIndex := index;
                          sequence := seq; witness := [] |}];
     outs := outs tx |}.

Definition pushOutput (tx : Transaction) (scriptPubKey : Buffer) (value : Z)
  : Transaction :=
  {| version := version tx; locktime := locktime tx; ins := ins tx;
     outs := outs tx ++ [{| script := scriptPubKey; amount := value |}] |}.

Definition withWitness0 (tx : Transaction) (w : list (option Buffer))
  : Transaction :=
  {| version := version tx; locktime := locktime tx;
     ins := match ins tx with
            | [] => []
            | i :: rest =>
                {| prevHash := prevHash i; prevIndex := prevIndex i;
                   sequence := sequence i; witness := w |} :: rest
            end;
     outs := outs tx |}.

(** The argument checks of bitcoinjs-lib's [Transaction]: a 32-bit unsigned
    integer, an amount in satoshis (at most 21 million coins), a value that
    is a Buffer and not [undefined]. *)
Definition SATOSHI_MAX : Z := 2100000000000000.

Definition isUInt32 (n : Z) : bool := ((0 <=? n) && (n <=? 0xffffffff))%Z.

Definition isSatoshi (n : Z) : bool := ((0 <=? n) && (n <=? SATOSHI_MAX))%Z.

Definition isBuffer (v : option Buffer) : bool :=
  match v with Some _ => true | None => false end.

(** [tx.addInput(hash, index, sequence)] throws unless the hash is 32 bytes
    long and the index and the sequence number are 32-bit unsigned
    integers. *)
Definition addInput (tx : Transaction) (hash : Buffer) (index seq : Z)
  : result Transaction :=
  if (length hash =? 32)%nat && isUInt32 index && isUInt32 seq
  then ret (pushInput tx hash index seq)
  else throw (Error "Expected property of type Hash256bit or UInt32").

(** [tx.addOutput(scriptPubKey, value)] throws unless the value is an
    amount in satoshis. *)
Definition addOutput (tx : Transaction) (scriptPubKey : Buffer) (value : Z)
  : result Transaction :=
  if isSatoshi value
  then ret (pushOutput tx scriptPubKey value)
  else throw (Error "Expected property of type Satoshi").

(** [tx.setWitness(0, w)] throws unless every element of [w] is a Buffer,
    and when the transaction has no input. *)
Definition setWitness0 (tx : Transaction) (w : list (option Buffer))
  : result Transaction :=
  if forallb isBuffer w
  then match ins tx with
       | [] => throw (TypeError "Cannot set properties of undefined")
       | _ :: _ => ret (withWitness0 tx w)
       end
  else throw (Error "Expected property of type [Buffer]").

Definition SIGHASH_DEFAULT : Z := 0.

(** The sequence number that marks an input final. *)
Definition SEQUENCE_FINAL : Z := 0xffffffff.

(** The transaction codec of bitcoinjs-lib: the computation of the
    signature digest of a transaction, once its arguments are accepted,
    and the output script of an address.  Both may throw. *)
Class TxCodec : Type :=
  { Network : Type;
    sighashV1 :
      Transaction -> Z -> list (option Buffer) -> list Z -> Z -> result Buffer;
    toOutputScript : string -> Network -> result Buffer }.

(** [tx.hashForWitnessV1(inIndex, prevOutScripts, values, hashType)]: the
    arguments are checked (an index, Buffers, amounts, a hash type), then a
    script and a value are required for every input of the transaction,
    then the digest is computed. *)
Definition hashForWitnessV1 {codec : TxCodec} (tx : Transaction) (inIndex : Z)
    (prevOutScripts : list (option Buffer)) (values : list Z) (hashType : Z)
  : result Buffer :=
  if negb (isUInt32 inIndex && forallb isBuffer prevOutScripts
           && forallb isSatoshi values && isUInt32 hashType)
  then throw (Error "Expected property of type UInt32, [Buffer] or [Satoshi]")
  else if negb ((length values =? length (ins tx))%nat
                && (length prevOutScripts =? length (ins tx))%nat)
  then throw (Error "Must supply prevout script and value for all inputs")
  else sighashV1 tx inIndex prevOutScripts values hashType.

(** The RPC client.  [sendRawTransaction] stands for the serialization
    [tx.toHex()] of the transaction followed by the call of the node with
    it; either may throw. *)
Record RpcClient : Type :=
  { getBlockCount : Z;
    sendRawTransaction : Transaction -> result string }.

(** The object returned by [createTaprootAddress]. *)
Record TaprootInfo : Type :=
  { address : string;
    internalPubkeyFull : Buffer;
    internalX : Buffer;
    leaves : list Buffer;
    lockHeight : Z;
    merkleRoot : option Buffer }.

(** [txid] stands for the bytes of [Buffer.from(utxo.txid, 'hex')]. *)
Record Utxo : Type :=
  { txid : Buffer;
    vout : Z;
    value : Z }.

Section Spend.

Context {crypto : Crypto} {ecc : Ecc} {codec : TxCodec}.

(** The transaction [buildAndBroadcastScriptPathSpend] serializes. *)
Definition scriptPathSpendTx (utxoObj : Utxo) (taprootInfo : TaprootInfo)
    (leafIndex : Z) (sigs : list Buffer) (destination : string) (feeSats : Z)
    (network : Network) : result Transaction :=
  let leafScript := js_index (leaves taprootInfo) leafIndex in
  controlBlock <- computeControlBlockForIndex
                    (internalPubkeyFull taprootInfo) (leaves taprootInfo)
                    leafIndex ;;
  let tx := setVersion newTransaction 2 in
  tx <- addInput tx (rev (txid utxoObj)) (vout utxoObj) 0xffffffff ;;
  out <- toOutputScript destination network ;;
  tx <- addOutput tx out (value utxoObj - feeSats) ;;
  let witness := map Some sigs ++ [leafScript; Some controlBlock] in
  setWitness0 tx witness.

Definition buildAndBroadcastScriptPathSpend (rpcClient : RpcClient)
    (utxoObj : Utxo) (taprootInfo : TaprootInfo) (leafIndex : Z)
    (sigs : list Buffer) (destination : string) (feeSats : Z)
    (network : Network) : result string :=
  tx <- scriptPathSpendTx utxoObj taprootInfo leafIndex sigs destination
          feeSats network ;;
  sendRawTransaction rpcClient tx.

(** The transaction [spendCltvLeaf] serializes. *)
Definition cltvSpendTx (utxoObj : Utxo) (taprootInfo : TaprootInfo)
    (privKey32 : Buffer) (destination : string) (feeSats : Z)
    (network : Network) : result Transaction :=
  let leafIndex := 1%Z in
  let leafScript := js_index (leaves taprootInfo) leafIndex in
  controlBlock <- computeControlBlockForIndex
                    (internalPubkeyFull taprootInfo) (leaves taprootInfo)
                    leafIndex ;;
  let tx := setVersion newTransaction 2 in
  let tx := setLocktime tx (lockHeight taprootInfo) in
  tx <- addInput tx (rev (txid utxoObj)) (vout utxoObj) 0xfffffffe ;;
  out <- toOutputScript destination network ;;
  tx <- addOutput tx out (value utxoObj - feeSats) ;;
  sighash <- hashForWitnessV1 tx 0 [leafScript] [value utxoObj]
               SIGHASH_DEFAULT ;;
  sig <- signSchnorr sighash privKey32 ;;
  setWitness0 tx [Some sig; leafScript; Some controlBlock].

Definition spendCltvLeaf (rpcClient : RpcClient) (utxoObj : Utxo)
    (taprootInfo : TaprootInfo) (privKey32 : Buffer) (destination : string)
    (feeSats : Z) (network : Network) : result string :=
  tx <- cltvSpendTx utxoObj taprootInfo privKey32 destination feeSats
          network ;;
  sendRawTransaction rpcClient tx.

(** The transaction [spendKeyPath] serializes. *)
Definition keyPathSpendTx (utxoObj : Utxo) (internalPrivKey32 : Buffer)
    (taprootInfo : TaprootInfo) (destination : string) (feeSats : Z)
    (network : Network) : result Transaction :=
  let merkleRoot :=
    match merkleRoot taprootInfo with Some r => r | None => [] end in
  let internalX := internalX taprootInfo in
  tweaked <- tweakPrivateKey internalPrivKey32 internalX (Some merkleRoot) ;;
  let tweakedPriv := tweakedPriv tweaked in
  let tx := setVersion newTransaction 2 in
  tx <- addInput tx (rev (txid utxoObj)) (vout utxoObj) 0xffffffff ;;
  out <- toOutputScript destination network ;;
  tx <- addOutput tx out (value utxoObj - feeSats) ;;
  sighash <- hashForWitnessV1 tx 0 [] [value utxoObj] SIGHASH_DEFAULT ;;
  sig <- signSchnorr sighash tweakedPriv ;;
  setWitness0 tx [Some sig].

Definition spendKeyPath (rpcClient : RpcClient) (utxoObj : Utxo)
    (internalPrivKey32 : Buffer) (taprootInfo : TaprootInfo)
    (destination : string) (feeSats : Z) (network : Network)
  : result string :=
  tx <- keyPathSpendTx utxoObj internalPrivKey32 taprootInfo destination
          feeSats network ;;
  sendRawTransaction rpcClient tx.

End Spend.

(** ** Keys given as text or without a prefix *)

(** [/^[0-9a-fA-F]+$/.test(s)]: at least one character, all of them
    hexadecimal digits. *)
Definition is_hex_digit (c : Ascii.ascii) : bool :=
  match hex_digit c with Some _ => true | None => false end.

Fixpoint all_hex (s : string) : bool :=
  match s with
  | EmptyString => true
  | String c rest => is_hex_digit c && all_hex rest
  end.

Definition hex_regex_test (s : string) : bool :=
  match s with
  | EmptyString => false
  | _ => all_hex s
  end.

(** [validatePubkeyHex] on a string (on a value of another type it throws
    "Pubkey must be a hex string"). *)
Definition validatePubkeyHex (pubkeyHex : string) : result Buffer :=
  if negb (hex_regex_test pubkeyHex)
  then throw (Error "Pubkey must be a valid hex string")
  else
    let pubkey := Buffer_from_hex pubkeyHex in
    if (length pubkey =? 33)%nat then
      match nth_error pubkey 0 with
      | Some x02 | Some x03 => ret pubkey
      | _ => throw (Error "Invalid compressed pubkey prefix (must be 0x02 or 0x03)")
      end
    else if (length pubkey =? 32)%nat then ret pubkey
    else throw (Error "Invalid pubkey length (must be 32 or 33 bytes)").

(** [buf.toString('hex')]. *)
Definition hex_char (n : N) : Ascii.ascii :=
  Ascii.ascii_of_N (if (n <? 10)%N then 48 + n else 87 + n)%N.

Fixpoint Buffer_toString_hex (b : Buffer) : string :=
  match b with
  | [] => EmptyString
  | x :: rest =>
      String (hex_char (Byte.to_N x / 16))
        (String (hex_char (Byte.to_N x mod 16)) (Buffer_toString_hex rest))
  end.

Definition ensureCompressedPubkey (pub : Buffer) : result Buffer :=
  if (length pub =? 33)%nat then ret pub
  else if (length pub =? 32)%nat then ret (Buffer_from [0x02%Z] ++ pub)
  else throw (Error "provide Buffer(33) compressed pubkey or Buffer(32) x-only pubkey").

(** ** Building the output *)

(** What [bitcoin.script.compile] is given: buffers to push and opcodes,
    the opcodes under the names they have in bitcoin-ops. *)
Inductive ScriptChunk : Type :=
| PUSH (data : Buffer)
| OP (name : string).

(** The script compiler, the script-number encoder and the address of the
    pay-to-taproot payment of bitcoinjs-lib. *)
Class ScriptLib (codec : TxCodec) : Type :=
  { compile : list ScriptChunk -> result Buffer;
    numberEncode : Z -> Buffer;
    p2trAddress : Buffer -> list Buffer -> Network -> result string }.

Section Output.

Context {crypto : Crypto} {codec : TxCodec} {scripts : ScriptLib codec}.

(** [createTaprootAddress]; the default values of [network],
    [lockDeltaBlocks] (2000) and [internalKeyOptionally] (absent) are the
    caller's to pass. *)
Definition createTaprootAddress (pubkeys : list Buffer)
    (currentBlockHeight : Z) (network : Network) (lockDeltaBlocks : Z)
    (internalKeyOptionally : option Buffer) : result TaprootInfo :=
  match pubkeys with
  | [k0; k1; k2] =>
      let lockHeight := (currentBlockHeight + lockDeltaBlocks)%Z in
      let xonly k := if (length k =? 33)%nat then slice 1 33 k else k in
      leaf1 <- compile [PUSH (xonly k0); OP "OP_CHECKSIG";
                        PUSH (xonly k1); OP "OP_CHECKSIGADD";
                        PUSH (xonly k2); OP "OP_CHECKSIGADD";
                        PUSH (numberEncode 2); OP "OP_NUMEQUAL"] ;;
      leaf2 <- compile [PUSH (numberEncode lockHeight);
                        OP "OP_CHECKLOCKTIMEVERIFY"; OP "OP_DROP";
                        PUSH (xonly k0); OP "OP_CHECKSIG"] ;;
      internalFull <- ensureCompressedPubkey
                        (match internalKeyOptionally with
                         | Some k => k
                         | None => k0
                         end) ;;
      let internalX := slice 1 33 internalFull in
      addr <- p2trAddress internalX [leaf1; leaf2] network ;;
      let merkleRoot := computeMerkleRoot [leaf1; leaf2] in
      ret {| address := addr;
             internalPubkeyFull := internalFull;
             internalX := internalX;
             leaves := [leaf1; leaf2];
             lockHeight := lockHeight;
             merkleRoot := merkleRoot |}
  | _ => throw (Error "need 3 pubkeys")
  end.


End Output.

(** ** The leaf message of the specification

    What BIP-341, the specification and the comment above [tapLeafHash]
    name as the input of the leaf hash: the leaf version, the compact-size
    encoding of the script length, the script. *)

Definition le_bytes (width : nat) (n : N) : Buffer :=
  map (fun i => byte_of_N (N.shiftr n (8 * N.of_nat i))) (seq 0 width).

Definition spec_compactSize (n : N) : Buffer :=
  if (n <? 0xfd)%N then [byte_of_N n]
  else if (n <=? 0xffff)%N then xfd :: le_bytes 2 n
  else if (n <=? 0xffffffff)%N then xfe :: le_bytes 4 n
  else xff :: le_bytes 8 n.

Definition spec_leafMessage (scriptBuffer : Buffer) : Buffer :=
  Buffer_from [0xc0%Z] ++ spec_compactSize (N.of_nat (length scriptBuffer))
  ++ scriptBuffer.

(** ** Instances on which the definitions are run

    The tagged hash is the real one.  The scalar addition is the one of the
    curve order; the public point, the signature, the signature digest, the
    address decoder and the node are deterministic stand-ins with the shapes
    of the real ones (33, 64 and 32 bytes), since no theorem depends on what
    they compute. *)

Module Fixture.

Definition sha256Crypto : Crypto :=
  {| taggedHash := Sha256.taggedHash |}.

Definition curveOrder : N :=
  0xFFFFFFFFFFFFFFFFFFFFFFFFFFFFFFFEBAAEDCE6AF48A03BBFD25E8CD0364141.

Definition N_of_Buffer (b : Buffer) : N :=
  fold_left (fun acc x => (acc * 256 + Byte.to_N x)%N) b 0%N.

Definition Buffer_of_N (width : nat) (n : N) : Buffer :=
  map (fun i => byte_of_N (N.shiftr n (8 * N.of_nat i))) (rev (seq 0 width)).

Definition scalarAdd (d t : Buffer) : result (option Buffer) :=
  let dn := N_of_Buffer d in
  let tn := N_of_Buffer t in
  if negb ((length d =? 32)%nat && (0 <? dn)%N && (dn <? curveOrder)%N)
  then throw (TypeError "Expected Private")
  else if negb ((length t =? 32)%nat && (tn <? curveOrder)%N)
  then throw (TypeError "Expected Tweak")
  else
    let s := ((dn + tn) mod curveOrder)%N in
    if (s =? 0)%N then ret None else ret (Some (Buffer_of_N 32 s)).

Definition standInEcc : Ecc :=
  {| privateAdd := scalarAdd;
     pointFromScalar := fun d _ =>
       if (N_of_Buffer d =? 0)%N then ret None
       else ret (Some (x02 :: Sha256.sha256 d));
     signSchnorr := fun h d =>
       ret (Sha256.sha256 (d ++ h) ++ Sha256.sha256 (h ++ d)) |}.

Definition flatten (l : list (option Buffer)) : Buffer :=
  concat (map (fun o => match o with Some b => b | None => [] end) l).

Definition standInCodec : TxCodec :=
  {| Network := unit;
     sighashV1 := fun tx inIndex scripts values hashType =>
       ret (Sha256.taggedHash "TapSighash"
              (Buffer_of_N 4 (Z.to_N (version tx))
               ++ Buffer_of_N 4 (Z.to_N (locktime tx))
               ++ concat (map (fun i => prevHash i
                                        ++ Buffer_of_N 4 (Z.to_N (sequence i)))
                              (ins tx))
               ++ concat (map (fun o => script o) (outs tx))
               ++ flatten scripts
               ++ concat (map (fun v => Buffer_of_N 8 (Z.to_N v)) values)));
     toOutputScript := fun addr _ =>
       match addr with
       | EmptyString => throw (Error "invalid address")
       | _ => ret (x00 :: x14 :: firstn 20 (Sha256.sha256 (list_byte_of_string addr)))
       end |}.

(** A node that accepts whatever it is sent. *)
Definition acceptingNode (height : Z) : RpcClient :=
  {| getBlockCount := height;
     sendRawTransaction := fun _ => ret "accepted"%string |}.

(** The three compressed public keys of the test vectors. *)
Definition pubkey1 : Buffer :=
  Buffer_from_hex "039d815fa419f816f701e80f6c4f50089fedf0e3d74efad96d9cdb5117930e61c0".
Definition pubkey2 : Buffer :=
  Buffer_from_hex "037eeedaa390967956b958e2ebf8dd93cfbf934c9e363a4b64d8e27500e6d0b6e1".
Definition pubkey3 : Buffer :=
  Buffer_from_hex "0316e90c4a02eb9957a8d06fad448c6784675b1db42aec74f68c62d55279b58f07".

(** The two leaf scripts for these keys and lock height 2106: the 2-of-3
    leaf and the timelocked leaf. *)
Definition leaf1 : Buffer :=
  [x20] ++ slice 1 33 pubkey1 ++ [xac] ++
  [x20] ++ slice 1 33 pubkey2 ++ [xba] ++
  [x20] ++ slice 1 33 pubkey3 ++ [xba] ++ [x52; x9c].

Definition leaf2 : Buffer :=
  [x02; x3a; x08; xb1; x75] ++ [x20] ++ slice 1 33 pubkey1 ++ [xac].

Definition info : TaprootInfo :=
  {| address := "bcrt1p-fixture";
     internalPubkeyFull := pubkey1;
     internalX := slice 1 33 pubkey1;
     leaves := [leaf1; leaf2];
     lockHeight := 2106;
     merkleRoot := @computeMerkleRoot sha256Crypto [leaf1; leaf2] |}.

Definition utxo : Utxo :=
  {| txid := Sha256.sha256 [x01]; vout := 0; value := 100000000 |}.

Definition privKey : Buffer := repeat x11 32.

Definition sig0 : Buffer := repeat xa0 64.
Definition sig1 : Buffer := repeat xa1 64.

(** A script compiler with the encodings of the chunks used here: a push of
    one byte between 1 and 16 is the small-number opcode, another push is
    its length and its bytes; script numbers are little-endian with a sign
    bit. *)
Definition opcode (name : string) : option byte :=
  if String.eqb name "OP_CHECKSIG" then Some xac
  else if String.eqb name "OP_CHECKSIGADD" then Some xba
  else if String.eqb name "OP_NUMEQUAL" then Some x9c
  else if String.eqb name "OP_CHECKLOCKTIMEVERIFY" then Some xb1
  else if String.eqb name "OP_DROP" then Some x75
  else None.

Definition compileChunk (c : ScriptChunk) : result Buffer :=
  match c with
  | OP name =>
      match opcode name with
      | Some b => ret [b]
      | None => throw (TypeError "Expected Buffer or Number")
      end
  | PUSH [b] =>
      if ((1 <=? Byte.to_N b) && (Byte.to_N b <=? 16))%N
      then ret [byte_of_N (0x50 + Byte.to_N b)]
      else ret [x01; b]
  | PUSH data => ret (byte_of_N (N.of_nat (length data)) :: data)
  end.

Fixpoint compileChunks (l : list ScriptChunk) : result Buffer :=
  match l with
  | [] => ret []
  | c :: rest => b <- compileChunk c ;; r <- compileChunks rest ;; ret (b ++ r)
  end.

Fixpoint scriptNumber (fuel : nat) (n : N) : Buffer :=
  match fuel with
  | O => []
  | S fuel' =>
      if (n =? 0)%N then []
      else if (n <? 0x80)%N then [byte_of_N n]
      else if (n <? 0x100)%N then [byte_of_N n; x00]
      else byte_of_N n :: scriptNumber fuel' (N.shiftr n 8)
  end.

Definition standInScripts : ScriptLib standInCodec :=
  {| compile := compileChunks;
     numberEncode := fun z => scriptNumber 8 (Z.to_N z);
     p2trAddress := fun internal _ _ =>
       if (length internal =? 32)%nat
       then ret (String.append "bcrt1p-" (Buffer_toString_hex internal))
       else throw (TypeError "Expected Buffer(Length: 32)") |}.

End Fixture.

(** * Properties *)

(** ** Buffer comparison *)

Lemma to_N_inj (x y : byte) : Byte.to_N x = Byte.to_N y -> x = y.
Proof.
  intros H. apply (f_equal Byte.of_N) in H.
  rewrite !Byte.of_to_N in H. congruence.
Qed.

Lemma Buffer_compare_range (a b : Buffer) :
  Buffer_compare a b = (-1)%Z \/ Buffer_compare a b = 0%Z
  \/ Buffer_compare a b = 1%Z.
Proof.
  revert b. induction a as [|x a IH]; intros [|y b]; simpl; auto.
  destruct (N.compare (Byte.to_N x) (Byte.to_N y)); auto.
Qed.

Lemma Buffer_compare_eq (a b : Buffer) :
  Buffer_compare a b = 0%Z -> a = b.
Proof.
  revert b. induction a as [|x a IH]; intros [|y b]; simpl; try discriminate; auto.
  destruct (N.compare (Byte.to_N x) (Byte.to_N y)) eqn:E; try discriminate.
  intros H. apply N.compare_eq in E. apply to_N_inj in E.
  f_equal; auto.
Qed.

Lemma Buffer_compare_antisym (a b : Buffer) :
  Buffer_compare b a = (- Buffer_compare a b)%Z.
Proof.
  revert b. induction a as [|x a IH]; intros [|y b]; simpl; auto.
  rewrite (N.compare_antisym (Byte.to_N x) (Byte.to_N y)).
  destruct (N.compare (Byte.to_N x) (Byte.to_N y)); simpl; auto.
Qed.


Lemma spec_compactSize_nonempty (n : N) : (1 <= length (spec_compactSize n))%nat.
Proof.
  unfold spec_compactSize.
  destruct (n <? 253)%N; [simpl; lia|].
  destruct (n <=? 65535)%N; [simpl; lia|].
  destruct (n <=? 4294967295)%N; simpl; lia.
Qed.

(** Lists taken two elements at a time, as the pairing loop does. *)
Lemma list_pair_ind (A : Type) (P : list A -> Prop) :
  P [] -> (forall a, P [a]) ->
  (forall a b l, P l -> P (a :: b :: l)) ->
  forall l, P l.
Proof.
  intros Hnil Hone Hstep.
  fix IH 1. intros [|a [|b l]]; [exact Hnil | apply Hone | apply Hstep, IH].
Qed.

Section CommitmentProperties.

Context {crypto : Crypto}.

(** C1.  The leaf hash is the tagged hash, under TapLeaf, of the leaf
    version byte followed by the script alone: the message has no
    compact-size length prefix, so for every script it differs from (and is
    shorter than) the message version || compact_size(length) || script. *)
Theorem tapLeafHash_omits_compact_size (scriptBuffer : Buffer) :
  tapLeafHash scriptBuffer = taggedHash "TapLeaf" (xc0 :: scriptBuffer)
  /\ tapLeafMessage scriptBuffer <> spec_leafMessage scriptBuffer
  /\ (length (tapLeafMessage scriptBuffer)
      < length (spec_leafMessage scriptBuffer))%nat.
Proof.
  assert (Hlen : (length (tapLeafMessage scriptBuffer)
                  < length (spec_leafMessage scriptBuffer))%nat).
  { unfold tapLeafMessage, spec_leafMessage.
    rewrite !length_app.
    pose proof (spec_compactSize_nonempty (N.of_nat (length scriptBuffer))).
    lia. }
  split; [reflexivity|]. split; [|exact Hlen].
  intros Heq. rewrite Heq in Hlen. lia.
Qed.

Lemma nextLayer_nonempty (layer : list Buffer) :
  layer <> [] -> nextLayer layer <> [].
Proof. destruct layer as [|a [|b rest]]; simpl; congruence. Qed.

Lemma nextLayer_Forall (P : Buffer -> Prop) (layer : list Buffer) :
  (forall a b, P (tapBranchHash a b)) ->
  Forall P layer -> Forall P (nextLayer layer).
Proof.
  intros Hbranch. induction layer as [|a|a b rest IH] using list_pair_ind;
    simpl; auto.
  intros H. inversion H as [|? ? _ H']; subst.
  inversion H' as [|? ? _ H'']; subst.
  constructor; auto.
Qed.

Lemma nextLayer_length (layer : list Buffer) :
  length (nextLayer layer) = Nat.div2 (S (length layer)).
Proof.
  induction layer as [|a|a b rest IH] using list_pair_ind; simpl; auto.
Qed.

(** The reduction loop ends, on a non-empty array, with a single hash. *)
Lemma reduceLayers_single (P : Buffer -> Prop) (current : list Buffer) :
  (forall a b, P (tapBranchHash a b)) ->
  current <> [] -> Forall P current ->
  exists r, reduceLayers current = [r] /\ P r.
Proof.
  intros Hbranch. funelim (reduceLayers current); intros Hne HP.
  - congruence.
  - exists b. inversion HP; auto.
  - match goal with IH : context [exists _, _] |- _ => apply IH end; auto.
    + discriminate.
    + apply nextLayer_Forall with (layer := a :: b :: rest); auto.
Qed.

Lemma taggedHash_branch_length :
  (forall tag m, length (taggedHash tag m) = 32%nat) ->
  forall a b, length (tapBranchHash a b) = 32%nat.
Proof. intros H a b. unfold tapBranchHash. destruct (_ =? _)%Z; apply H. Qed.

Lemma computeMerkleRoot_two (a b : Buffer) :
  computeMerkleRoot [a; b]
  = Some (tapBranchHash (tapLeafHash a) (tapLeafHash b)).
Proof.
  unfold computeMerkleRoot, computeMerkleRootFromLeafHashes. simpl.
  simp reduceLayers. simpl. simp reduceLayers. reflexivity.
Qed.

Lemma computeMerkleRoot_many (scriptLeaves : list Buffer) :
  (forall tag m, length (taggedHash tag m) = 32%nat) ->
  (2 <= length scriptLeaves)%nat ->
  exists r, computeMerkleRoot scriptLeaves = Some r /\ length r = 32%nat.
Proof.
  intros H32 Hlen. unfold computeMerkleRoot, computeMerkleRootFromLeafHashes.
  cbv zeta. rewrite length_map.
  destruct (Nat.eqb_spec (length scriptLeaves) 1); [lia|].
  destruct (Nat.eqb_spec (length scriptLeaves) 0); [lia|].
  destruct (@reduceLayers_single (fun h => length h = 32%nat)
              (map tapLeafHash scriptLeaves)) as [r [Hr Hr32]].
  - apply taggedHash_branch_length, H32.
  - destruct scriptLeaves; simpl in *; [lia | congruence].
  - apply Forall_map, Forall_forall. intros s _. apply H32.
  - exists r. rewrite Hr. auto.
Qed.

(** C4 (as the code has it).  The Merkle root of the empty leaf sequence is
    not an error: both root functions return the zero-length buffer. *)
Theorem computeMerkleRoot_empty_returns_empty :
  computeMerkleRoot [] = Some []
  /\ computeMerkleRootFromLeafHashes [] = Some [].
Proof. split; reflexivity. Qed.

(** C5 (as the code has it).  When tagged hashes are 32 bytes long, the
    Merkle root is the zero-length buffer exactly when there is at most one
    leaf (none or one); and the root of two leaves is the branch hash of
    their leaf hashes. *)
Theorem computeMerkleRoot_empty_iff_at_most_one
    (H32 : forall tag m, length (taggedHash tag m) = 32%nat)
    (scriptLeaves : list Buffer) :
  (computeMerkleRoot scriptLeaves = Some [] <-> (length scriptLeaves <= 1)%nat)
  /\ forall a b : Buffer,
       computeMerkleRoot [a; b]
       = Some (tapBranchHash (tapLeafHash a) (tapLeafHash b)).
Proof.
  split; [|apply computeMerkleRoot_two].
  split.
  - intros Hroot.
    destruct (Nat.le_gt_cases (length scriptLeaves) 1) as [|Hgt]; auto.
    destruct (computeMerkleRoot_many scriptLeaves H32) as [r [Hr Hlen]]; [lia|].
    rewrite Hr in Hroot. inversion Hroot; subst. discriminate.
  - intros Hlen. destruct scriptLeaves as [|a [|b rest]]; simpl in Hlen;
      try reflexivity; lia.
Qed.

(** C9.  The branch hash does not depend on the position of its two
    arguments: both orders hash, under the tag TapBranch, the concatenation
    of the two children with the one that is not larger in byte order
    first. *)
Theorem tapBranchHash_order_independent (a b : Buffer) :
  tapBranchHash a b = tapBranchHash b a
  /\ exists lo hi : Buffer,
       ((lo = a /\ hi = b) \/ (lo = b /\ hi = a))
       /\ (Buffer_compare lo hi <= 0)%Z
       /\ tapBranchHash a b = taggedHash "TapBranch" (lo ++ hi).
Proof.
  unfold tapBranchHash.
  pose proof (Buffer_compare_antisym a b) as Hanti.
  destruct (Buffer_compare_range a b) as [H | [H | H]].
  - rewrite H in *. rewrite Hanti. simpl. split; [reflexivity|].
    exists a, b. rewrite H. repeat split; auto. lia.
  - pose proof (Buffer_compare_eq _ _ H) as ->.
    split; [reflexivity|]. rewrite H. simpl.
    exists b, b. rewrite H. repeat split; auto. lia.
  - rewrite H in *. rewrite Hanti. simpl. split; [reflexivity|].
    exists b, a. rewrite Hanti. repeat split; auto. lia.
Qed.

End CommitmentProperties.

Lemma Buffer_concat_somes (l : list Buffer) :
  Buffer_concat (map Some l) = inr (concat l).
Proof.
  induction l as [|b l IH]; simpl; auto. rewrite IH. reflexivity.
Qed.

Lemma slice_key_length (key : Buffer) :
  length key = 33%nat -> length (slice 1 33 key) = 32%nat.
Proof.
  intros H. unfold slice. rewrite length_firstn, length_skipn. lia.
Qed.

Lemma js_index_in_range (A : Type) (l : list A) (i : Z) :
  (0 <= i < Z.of_nat (length l))%Z ->
  exists x, js_index l i = Some x /\ In x l.
Proof.
  intros [H0 H1]. unfold js_index.
  destruct (Z.ltb_spec i 0); [lia|].
  destruct (nth_error l (Z.to_nat i)) eqn:E.
  - exists a. split; auto. eapply nth_error_In; eauto.
  - apply nth_error_None in E. lia.
Qed.


Section ControlBlockProperties.

Context {crypto : Crypto}.

(** On an index that names a node of the layer, the loop records only
    hashes of the layers (never [undefined]), after the ones it was given. *)
Lemma siblingPath_in_range (P : Buffer -> Prop) (idx : Z)
    (layer : list Buffer) (path : list (option Buffer)) :
  (forall a b, P (tapBranchHash a b)) ->
  (0 <= idx < Z.of_nat (length layer))%Z ->
  Forall P layer ->
  exists siblings,
    siblingPath idx layer path = path ++ map Some siblings
    /\ Forall P siblings.
Proof.
  intros Hbranch. funelim (siblingPath idx layer path); intros Hidx HP.
  - exists []. rewrite app_nil_r. auto.
  - exists []. rewrite app_nil_r. auto.
  - remember (a :: b :: rest) as layer eqn:Hlayer.
    remember (if Z.rem idx 2 =? 0 then idx + 1 else idx - 1)%Z as pairIndex
      eqn:Hpair.
    assert (Hpos : (0 <= pairIndex)%Z).
    { subst pairIndex. destruct (Z.eqb_spec (Z.rem idx 2) 0) as [|Hodd]; [lia|].
      assert (idx <> 0)%Z by (intros ->; apply Hodd; reflexivity). lia. }
    assert (Hnext : (0 <= idx / 2 < Z.of_nat (length (nextLayer layer)))%Z).
    { rewrite nextLayer_length, Nat.div2_div, Nat2Z.inj_div.
      rewrite Nat2Z.inj_succ. simpl Z.of_nat.
      Z.to_euclidean_division_equations. lia. }
    destruct (H P Hbranch Hnext (nextLayer_Forall Hbranch HP))
      as [siblings [Hs HPs]].
    rewrite Hs. destruct (Z.ltb_spec pairIndex (Z.of_nat (length layer))).
    + destruct (@js_index_in_range _ layer pairIndex) as [x [Hx Hin]]; [lia|].
      exists (x :: siblings). rewrite Hx, <- app_assoc. split; [reflexivity|].
      constructor; auto. rewrite Forall_forall in HP. auto.
    + exists siblings. auto.
Qed.

(** The path recorded for a two-leaf tree and one of its two indexes is the
    other leaf hash. *)
Lemma siblingPath_two (idx : Z) (a b : Buffer) :
  (0 <= idx < 2)%Z ->
  siblingPath idx [a; b] [] = [Some (if (idx =? 0)%Z then b else a)].
Proof.
  intros Hidx. assert (Hcase : idx = 0%Z \/ idx = 1%Z) by lia.
  destruct Hcase as [-> | ->]; simp siblingPath; simpl; simp siblingPath;
    reflexivity.
Qed.

(** An index past the two leaves records nothing. *)
Lemma siblingPath_two_out_of_range (idx : Z) (a b : Buffer) :
  (2 <= idx)%Z -> siblingPath idx [a; b] [] = [].
Proof.
  intros Hidx. simp siblingPath. cbv zeta.
  replace ((if Z.rem idx 2 =? 0 then idx + 1 else idx - 1)
           <? Z.of_nat (length [a; b]))%Z with false.
  - simpl. simp siblingPath. reflexivity.
  - symmetry. apply Z.ltb_ge. simpl.
    destruct (Z.eqb_spec (Z.rem idx 2) 0) as [|Hodd]; [lia|].
    assert (idx <> 2)%Z by (intros ->; apply Hodd; reflexivity). lia.
Qed.


(** C10.  The target index is not checked against the number of leaves: for
    a two-leaf tree and any index of 2 or more, the call returns the 33-byte
    block made of the header and the internal key alone. *)
Theorem computeControlBlockForIndex_index_not_validated
    (internalPubkeyFull a b : Buffer) (targetIndex : Z) :
  length internalPubkeyFull = 33%nat ->
  (2 <= targetIndex)%Z ->
  computeControlBlockForIndex internalPubkeyFull [a; b] targetIndex
  = inr (Buffer_from [Z.lor 0xc0 (keyParity internalPubkeyFull)]
         ++ slice 1 33 internalPubkeyFull)
  /\ length (Buffer_from [Z.lor 0xc0 (keyParity internalPubkeyFull)]
             ++ slice 1 33 internalPubkeyFull) = 33%nat.
Proof.
  intros Hkey Hidx. split.
  - unfold computeControlBlockForIndex. rewrite Hkey. cbv zeta.
    change (negb (33 =? 33)%nat) with false. cbv iota.
    simpl map. simpl length. cbv iota.
    change (2 =? 1)%nat with false. cbv iota.
    rewrite siblingPath_two_out_of_range by assumption.
    simpl. rewrite app_nil_r. reflexivity.
  - rewrite length_app, slice_key_length by assumption. reflexivity.
Qed.

End ControlBlockProperties.

Section KeyTweakProperties.

Context {crypto : Crypto} {ecc : Ecc}.

(** C8.  For a 32-byte private key and a 32-byte internal key, the tweak
    handed to the scalar addition is the tagged hash, under TapTweak, of the
    internal key followed by the Merkle root.  When the engine answers that
    the sum is invalid, or throws, the call throws; when the sum and its
    point are computed, they are returned; and whatever is returned, its
    public key is the point of its private scalar. *)
Theorem tweakPrivateKey_tweak_and_point
    (privKey32 internalPubkeyX : Buffer) (merkleRoot : option Buffer) :
  length privKey32 = 32%nat ->
  length internalPubkeyX = 32%nat ->
  let root := match merkleRoot with Some r => r | None => [] end in
  let t := taggedHash "TapTweak" (internalPubkeyX ++ root) in
  (privateAdd privKey32 t = inr None ->
   tweakPrivateKey privKey32 internalPubkeyX merkleRoot
   = inl (Error "tweak resulted in invalid private key (unlikely)"))
  /\ (forall e, privateAdd privKey32 t = inl e ->
      tweakPrivateKey privKey32 internalPubkeyX merkleRoot = inl e)
  /\ (forall s pub,
      privateAdd privKey32 t = inr (Some s) ->
      pointFromScalar s true = inr (Some pub) ->
      tweakPrivateKey privKey32 internalPubkeyX merkleRoot
      = inr {| tweakedPriv := s; tweakedPub := pub;
               tweakedX := slice 1 33 pub; parity := keyParity pub |})
  /\ (forall r,
      tweakPrivateKey privKey32 internalPubkeyX merkleRoot = inr r ->
      privateAdd privKey32 t = inr (Some (tweakedPriv r))
      /\ pointFromScalar (tweakedPriv r) true = inr (Some (tweakedPub r))).
Proof.
  intros Hpriv Hx root t.
  unfold tweakPrivateKey. rewrite Hpriv, Hx.
  change (negb (32 =? 32)%nat) with false. cbv iota. fold root. fold t.
  repeat split.
  - intros ->. reflexivity.
  - intros e ->. reflexivity.
  - intros s pub -> . simpl. intros ->. reflexivity.
  - destruct (privateAdd privKey32 t) as [e | [s|]]; simpl in *;
      try discriminate.
    destruct (pointFromScalar s true) as [e | [pub|]]; simpl in *;
      try discriminate.
    inversion H; subst; reflexivity.
  - destruct (privateAdd privKey32 t) as [e | [s|]]; simpl in *;
      try discriminate.
    destruct (pointFromScalar s true) as [e | [pub|]] eqn:E; simpl in *;
      try discriminate.
    inversion H; subst. simpl. exact E.
Qed.

End KeyTweakProperties.

Section SpendProperties.

Context {crypto : Crypto} {ecc : Ecc} {codec : TxCodec}.

(** A transaction that was given one input and then one output has one
    input. *)
Lemma addInput_returns (tx : Transaction) (hash : Buffer) (index seq : Z) :
  length hash = 32%nat -> isUInt32 index = true -> isUInt32 seq = true ->
  addInput tx hash index seq = inr (pushInput tx hash index seq).
Proof. intros Hh Hi Hs. unfold addInput. rewrite Hh, Hi, Hs. reflexivity. Qed.

Lemma addInput_inr (tx tx' : Transaction) (hash : Buffer) (index seq : Z) :
  addInput tx hash index seq = inr tx' -> tx' = pushInput tx hash index seq.
Proof.
  unfold addInput. destruct (_ && _); [|discriminate].
  intros H. injection H as <-. reflexivity.
Qed.

Lemma addOutput_returns (tx : Transaction) (scriptPubKey : Buffer) (v : Z) :
  isSatoshi v = true ->
  addOutput tx scriptPubKey v = inr (pushOutput tx scriptPubKey v).
Proof. intros Hv. unfold addOutput. rewrite Hv. reflexivity. Qed.

Lemma addOutput_inr (tx tx' : Transaction) (scriptPubKey : Buffer) (v : Z) :
  addOutput tx scriptPubKey v = inr tx' -> tx' = pushOutput tx scriptPubKey v.
Proof.
  unfold addOutput. destruct (isSatoshi v); [|discriminate].
  intros H. injection H as <-. reflexivity.
Qed.


Lemma forallb_isBuffer_somes (l : list Buffer) :
  forallb isBuffer (map Some l) = true.
Proof. induction l; simpl; auto. Qed.

(** A digest is answered only for scripts that are all Buffers. *)
Lemma hashForWitnessV1_inr_scripts (tx : Transaction) (inIndex : Z)
    (prevOutScripts : list (option Buffer)) (values : list Z) (hashType : Z)
    (h : Buffer) :
  hashForWitnessV1 tx inIndex prevOutScripts values hashType = inr h ->
  forallb isBuffer prevOutScripts = true.
Proof.
  unfold hashForWitnessV1.
  destruct (isUInt32 inIndex); [|discriminate].
  destruct (forallb isBuffer prevOutScripts); [reflexivity | discriminate].
Qed.

(** The digest asked for with no script, on a transaction that has an input,
    is refused. *)
Lemma hashForWitnessV1_no_script (tx : Transaction) (i : TxInput)
    (rest : list TxInput) (inIndex : Z) (values : list Z) (hashType : Z) :
  ins tx = i :: rest ->
  exists e, hashForWitnessV1 tx inIndex [] values hashType = inl e.
Proof.
  intros Hins. unfold hashForWitnessV1. rewrite Hins.
  destruct (negb _); [eexists; reflexivity|].
  rewrite andb_false_r. eexists. reflexivity.
Qed.

(** C7.  The key-path spend asks the codec for the signature digest with
    the empty script list, on a transaction that has one input.  The codec
    requires a script for every input, so the call throws: the key-path
    spend never returns a transaction, whatever it is given, and no witness
    of one signature is built or sent.  When the key is tweaked, the
    out-point, the destination and the amounts accepted, the error is the
    codec's "Must supply prevout script and value for all inputs". *)
Theorem spendKeyPath_never_builds_a_witness
    (rpcClient : RpcClient) (utxoObj : Utxo) (internalPrivKey32 : Buffer)
    (taprootInfo : TaprootInfo) (destination : string) (feeSats : Z)
    (network : Network) :
  (exists e,
     keyPathSpendTx utxoObj internalPrivKey32 taprootInfo destination
       feeSats network = inl e)
  /\ (exists e,
        spendKeyPath rpcClient utxoObj internalPrivKey32 taprootInfo
          destination feeSats network = inl e)
  /\ (forall tweaked out,
        tweakPrivateKey internalPrivKey32 (internalX taprootInfo)
          (Some (match merkleRoot taprootInfo with
                 | Some r => r
                 | None => []
                 end)) = inr tweaked ->
        toOutputScript destination network = inr out ->
        length (txid utxoObj) = 32%nat ->
        isUInt32 (vout utxoObj) = true ->
        isSatoshi (value utxoObj - feeSats) = true ->
        isSatoshi (value utxoObj) = true ->
        spendKeyPath rpcClient utxoObj internalPrivKey32 taprootInfo
          destination feeSats network
        = inl (Error "Must supply prevout script and value for all inputs")).
Proof.
  assert (Hbuild : exists e,
            keyPathSpendTx utxoObj internalPrivKey32 taprootInfo destination
              feeSats network = inl e).
  { unfold keyPathSpendTx. cbv zeta.
    destruct (tweakPrivateKey _ _ _) as [e | tweaked];
      [eexists; reflexivity|]. cbn [bind].
    destruct (addInput _ _ _ _) as [e | tx1] eqn:Ein;
      [eexists; reflexivity|]. cbn [bind].
    destruct (toOutputScript _ _) as [e | out]; [eexists; reflexivity|].
    cbn [bind].
    destruct (addOutput _ _ _) as [e | tx2] eqn:Eout;
      [eexists; reflexivity|]. cbn [bind].
    apply addInput_inr in Ein. apply addOutput_inr in Eout. subst tx1 tx2.
    destruct (@hashForWitnessV1_no_script
                (pushOutput
                   (pushInput (setVersion newTransaction 2)
                      (rev (txid utxoObj)) (vout utxoObj) 4294967295)
                   out (value utxoObj - feeSats))
                {| prevHash := rev (txid utxoObj);
                   prevIndex := vout utxoObj;
                   sequence := 4294967295; witness := [] |} []
                0 [value utxoObj] SIGHASH_DEFAULT eq_refl) as [e He].
    rewrite He. eexists. reflexivity. }
  split; [exact Hbuild|]. split.
  - destruct Hbuild as [e He]. exists e. unfold spendKeyPath. rewrite He.
    reflexivity.
  - intros tweaked out Htweak Hout Htxid Hvout Hsend Hvalue.
    unfold spendKeyPath, keyPathSpendTx. cbv zeta. rewrite Htweak.
    cbn [bind].
    rewrite addInput_returns by (rewrite ?length_rev; auto). cbn [bind].
    rewrite Hout. cbn [bind]. rewrite addOutput_returns by assumption.
    cbn [bind]. unfold hashForWitnessV1. cbn [forallb isBuffer].
    rewrite Hvalue. reflexivity.
Qed.

(** C2 (as the code has it).  The timelock spend never looks at the chain
    height.  Once the control block of leaf 1 is derived, the out-point, the
    destination and the amount accepted, the digest computed and signed, the
    transaction built has the lock height as its locktime, the sequence
    number 0xfffffffe (below the final one) on its input and the witness
    signature, leaf script, control block; it is sent to the node whatever
    the node's height is, and the node's answer is the result. *)
Theorem spendCltvLeaf_builds_at_any_height
    (utxoObj : Utxo) (taprootInfo : TaprootInfo) (privKey32 : Buffer)
    (destination : string) (feeSats : Z) (network : Network)
    (controlBlock out sighash sig : Buffer) :
  computeControlBlockForIndex (internalPubkeyFull taprootInfo)
    (leaves taprootInfo) 1 = inr controlBlock ->
  toOutputScript destination network = inr out ->
  length (txid utxoObj) = 32%nat ->
  isUInt32 (vout utxoObj) = true ->
  isSatoshi (value utxoObj - feeSats) = true ->
  let leafScript := js_index (leaves taprootInfo) 1 in
  let tx :=
    pushOutput
      (pushInput (setLocktime (setVersion newTransaction 2)
                    (lockHeight taprootInfo))
         (rev (txid utxoObj)) (vout utxoObj) 0xfffffffe)
      out (value utxoObj - feeSats) in
  hashForWitnessV1 tx 0 [leafScript] [value utxoObj] SIGHASH_DEFAULT
  = inr sighash ->
  signSchnorr sighash privKey32 = inr sig ->
  let spend := withWitness0 tx [Some sig; leafScript; Some controlBlock] in
  cltvSpendTx utxoObj taprootInfo privKey32 destination feeSats network
  = inr spend
  /\ locktime spend = lockHeight taprootInfo
  /\ map (@sequence) (ins spend) = [0xfffffffe%Z]
  /\ (0xfffffffe < SEQUENCE_FINAL)%Z
  /\ map (@witness) (ins spend)
     = [[Some sig; leafScript; Some controlBlock]]
  /\ forall rpcClient,
       spendCltvLeaf rpcClient utxoObj taprootInfo privKey32 destination
         feeSats network
       = sendRawTransaction rpcClient spend.
Proof.
  intros Hcb Hout Htxid Hvout Hsend leafScript tx Hhash Hsign spend.
  assert (Hleaf : forallb isBuffer [leafScript] = true)
    by (eapply hashForWitnessV1_inr_scripts; exact Hhash).
  assert (Hbuild : cltvSpendTx utxoObj taprootInfo privKey32 destination
                     feeSats network = inr spend).
  { unfold cltvSpendTx. cbv zeta. rewrite Hcb. cbn [bind].
    rewrite addInput_returns by (rewrite ?length_rev; auto). cbn [bind].
    rewrite Hout. cbn [bind]. rewrite addOutput_returns by assumption.
    cbn [bind]. fold leafScript. fold tx. rewrite Hhash. cbn [bind].
    rewrite Hsign. cbn [bind]. unfold setWitness0.
    cbn [forallb isBuffer] in Hleaf |- *. rewrite andb_true_r in Hleaf.
    rewrite Hleaf. reflexivity. }
  repeat split; auto.
  intros rpcClient. unfold spendCltvLeaf. rewrite Hbuild. reflexivity.
Qed.

(** C3 (as the code has it).  The script-path spend does not inspect the
    signatures it is given.  Once the control block of the leaf is derived,
    the leaf index names a leaf, and the out-point, the destination and the
    amount are accepted, then for every list of signatures, of any number
    and of any lengths, the witness built is these signatures in the order
    given, then the leaf script, then the control block, and this
    transaction is what is handed over for sending. *)
Theorem scriptPathSpend_takes_any_signatures
    (utxoObj : Utxo) (taprootInfo : TaprootInfo) (leafIndex : Z)
    (sigs : list Buffer) (destination : string) (feeSats : Z)
    (network : Network) (controlBlock out leafScript : Buffer) :
  computeControlBlockForIndex (internalPubkeyFull taprootInfo)
    (leaves taprootInfo) leafIndex = inr controlBlock ->
  js_index (leaves taprootInfo) leafIndex = Some leafScript ->
  toOutputScript destination network = inr out ->
  length (txid utxoObj) = 32%nat ->
  isUInt32 (vout utxoObj) = true ->
  isSatoshi (value utxoObj - feeSats) = true ->
  let tx :=
    pushOutput
      (pushInput (setVersion newTransaction 2) (rev (txid utxoObj))
         (vout utxoObj) 0xffffffff)
      out (value utxoObj - feeSats) in
  let spend :=
    withWitness0 tx
      (map Some sigs ++ [Some leafScript; Some controlBlock]) in
  scriptPathSpendTx utxoObj taprootInfo leafIndex sigs destination feeSats
    network = inr spend
  /\ map (@witness) (ins spend)
     = [map Some sigs ++ [Some leafScript; Some controlBlock]]
  /\ forall rpcClient,
       buildAndBroadcastScriptPathSpend rpcClient utxoObj taprootInfo
         leafIndex sigs destination feeSats network
       = sendRawTransaction rpcClient spend.
Proof.
  intros Hcb Hleaf Hout Htxid Hvout Hsend tx spend.
  assert (Hbuild : scriptPathSpendTx utxoObj taprootInfo leafIndex sigs
                     destination feeSats network = inr spend).
  { unfold scriptPathSpendTx. cbv zeta. rewrite Hcb, Hleaf. cbn [bind].
    rewrite addInput_returns by (rewrite ?length_rev; auto). cbn [bind].
    rewrite Hout. cbn [bind]. rewrite addOutput_returns by assumption.
    cbn [bind]. unfold setWitness0.
    rewrite forallb_app, forallb_isBuffer_somes. reflexivity. }
  repeat split; auto.
  intros rpcClient. unfold buildAndBroadcastScriptPathSpend.
  rewrite Hbuild. reflexivity.
Qed.

(** What the codec refuses is not sent: with a leaf index that names no
    leaf the witness would hold [undefined], and with a fee above the value
    the amount would be negative; in both cases the script-path spend
    throws, for every list of signatures. *)
Lemma scriptPathSpend_codec_refusals
    (rpcClient : RpcClient) (utxoObj : Utxo) (taprootInfo : TaprootInfo)
    (leafIndex : Z) (sigs : list Buffer) (destination : string) (feeSats : Z)
    (network : Network) :
  js_index (leaves taprootInfo) leafIndex = None
  \/ (value utxoObj - feeSats < 0)%Z ->
  exists e,
    buildAndBroadcastScriptPathSpend rpcClient utxoObj taprootInfo leafIndex
      sigs destination feeSats network = inl e.
Proof.
  intros Hbad.
  unfold buildAndBroadcastScriptPathSpend, scriptPathSpendTx. cbv zeta.
  destruct (computeControlBlockForIndex _ _ _) as [e | cb];
    [eexists; reflexivity|]. cbn [bind].
  destruct (addInput _ _ _ _) as [e | tx1]; [eexists; reflexivity|].
  cbn [bind].
  destruct (toOutputScript _ _) as [e | out]; [eexists; reflexivity|].
  cbn [bind].
  destruct Hbad as [Hleaf | Hneg].
  - destruct (addOutput _ _ _) as [e | tx2]; [eexists; reflexivity|].
    cbn [bind]. unfold setWitness0.
    rewrite Hleaf, forallb_app, forallb_isBuffer_somes. cbn.
    eexists. reflexivity.
  - unfold addOutput, isSatoshi.
    destruct (Z.leb_spec 0 (value utxoObj - feeSats)); [lia|].
    eexists. reflexivity.
Qed.

End SpendProperties.

(** ** Runs on the fixture *)

Lemma sha256_length (msg : list byte) : length (Sha256.sha256 msg) = 32%nat.
Proof.
  unfold Sha256.sha256. cbv zeta.
  destruct (Sha256.blocks _ Sha256.init _). reflexivity.
Qed.

Lemma sha256_taggedHash_length (tag : string) (msg : Buffer) :
  length (@taggedHash Fixture.sha256Crypto tag msg) = 32%nat.
Proof. apply sha256_length. Qed.

Lemma standIn_signature_length (h d s : Buffer) :
  @signSchnorr Fixture.standInEcc h d = inr s -> length s = 64%nat.
Proof.
  intros H.
  change (@inr exn Buffer (Sha256.sha256 (d ++ h) ++ Sha256.sha256 (h ++ d))
          = inr s) in H.
  apply (f_equal (fun r : result Buffer =>
                    match r with inr x => length x | inl _ => 64%nat end))
    in H.
  cbv beta iota in H. rewrite <- H.
  rewrite length_app, !sha256_length. reflexivity.
Qed.

(** SHA-256 on the test vectors of FIPS 180-4, and the tag hash of TapLeaf. *)
Example sha256_abc :
  Sha256.sha256 (list_byte_of_string "abc")
  = Buffer_from_hex
      "ba7816bf8f01cfea414140de5dae2223b00361a396177a9cb410ff61f20015ad".
Proof. vm_compute. reflexivity. Qed.

Example sha256_two_blocks :
  Sha256.sha256
    (list_byte_of_string
       "abcdbcdecdefdefgefghfghighijhijkijkljklmklmnlmnomnopnopq")
  = Buffer_from_hex
      "248d6a61d20638b8e5c026930c3e6039a33ce45964ff2167f6ecedd419db06c1".
Proof. vm_compute. reflexivity. Qed.

(** On the one-byte script OP_TRUE the leaf hash computed is not the tagged
    hash of the message with the length prefix. *)
Example tapLeafHash_differs_on_OP_TRUE :
  @tapLeafHash Fixture.sha256Crypto [x51]
  = Buffer_from_hex
      "3666310eff6c2a0fe9b9b3dc326defded695072cbc2ec3f86697c5c2e03d00bd"
  /\ Sha256.taggedHash "TapLeaf" (spec_leafMessage [x51])
     = Buffer_from_hex
         "a85b2107f791b26a84e7586c28cec7cb61202ed3d01944d832500f363782d675".
Proof. split; vm_compute; reflexivity. Qed.

Lemma computeMerkleRoot_empty_not_rejected :
  @computeMerkleRoot Fixture.sha256Crypto [] = Some []
  /\ @computeMerkleRootFromLeafHashes Fixture.sha256Crypto [] = Some [].
Proof. split; reflexivity. Qed.

Lemma computeMerkleRoot_empty_root_of_no_leaf :
  @computeMerkleRoot Fixture.sha256Crypto [] = Some []
  /\ length (@nil Buffer) = 0%nat.
Proof. split; reflexivity. Qed.

Lemma computeMerkleRoot_empty_iff_at_most_one_witness :
  (forall tag m, length (Sha256.taggedHash tag m) = 32%nat)
  /\ (@computeMerkleRoot Fixture.sha256Crypto [Fixture.leaf1; Fixture.leaf2]
      = Some []
      <-> (length [Fixture.leaf1; Fixture.leaf2] <= 1)%nat)
  /\ forall a b : Buffer,
       @computeMerkleRoot Fixture.sha256Crypto [a; b]
       = Some (@tapBranchHash Fixture.sha256Crypto
                 (@tapLeafHash Fixture.sha256Crypto a)
                 (@tapLeafHash Fixture.sha256Crypto b)).
Proof.
  split; [exact sha256_taggedHash_length|].
  exact (@computeMerkleRoot_empty_iff_at_most_one Fixture.sha256Crypto
           sha256_taggedHash_length [Fixture.leaf1; Fixture.leaf2]).
Defined.


Lemma computeControlBlockForIndex_index_not_validated_witness :
  length Fixture.pubkey1 = 33%nat
  /\ (2 <= 7)%Z
  /\ @computeControlBlockForIndex Fixture.sha256Crypto Fixture.pubkey1
       [Fixture.leaf1; Fixture.leaf2] 7
     = inr (Buffer_from [Z.lor 0xc0 (keyParity Fixture.pubkey1)]
            ++ slice 1 33 Fixture.pubkey1).
Proof.
  split; [reflexivity|]. split; [lia|].
  apply (@computeControlBlockForIndex_index_not_validated
           Fixture.sha256Crypto Fixture.pubkey1 Fixture.leaf1 Fixture.leaf2 7);
    [reflexivity | lia].
Defined.

Lemma tweakPrivateKey_tweak_and_point_witness :
  length Fixture.privKey = 32%nat
  /\ length (internalX Fixture.info) = 32%nat
  /\ exists r,
       @tweakPrivateKey Fixture.sha256Crypto Fixture.standInEcc
         Fixture.privKey (internalX Fixture.info) (merkleRoot Fixture.info)
       = inr r
       /\ @pointFromScalar Fixture.standInEcc (tweakedPriv r) true
          = inr (Some (tweakedPub r)).
Proof.
  split; [reflexivity|]. split; [reflexivity|].
  destruct (@tweakPrivateKey_tweak_and_point Fixture.sha256Crypto
              Fixture.standInEcc Fixture.privKey (internalX Fixture.info)
              (merkleRoot Fixture.info) eq_refl eq_refl)
    as [_ [_ [_ Hret]]].
  eexists. split; [vm_compute; reflexivity|].
  apply Hret. vm_compute. reflexivity.
Defined.

(** On the fixture the key is tweaked and everything is accepted up to the
    digest, which the codec refuses. *)
Example spendKeyPath_throws_on_the_fixture :
  @spendKeyPath Fixture.sha256Crypto Fixture.standInEcc
    Fixture.standInCodec (Fixture.acceptingNode 2200) Fixture.utxo
    Fixture.privKey Fixture.info "bcrt1q-destination" 500 tt
  = inl (Error "Must supply prevout script and value for all inputs").
Proof. vm_compute. reflexivity. Qed.

Lemma spendCltvLeaf_builds_at_any_height_witness :
  exists tx sig cb,
    @cltvSpendTx Fixture.sha256Crypto Fixture.standInEcc
      Fixture.standInCodec Fixture.utxo Fixture.info Fixture.privKey
      "bcrt1q-destination" 500 tt = inr tx
    /\ locktime tx = 2106%Z
    /\ map (@sequence) (ins tx) = [0xfffffffe%Z]
    /\ map (@witness) (ins tx) = [[Some sig; Some Fixture.leaf2; Some cb]]
    /\ @spendCltvLeaf Fixture.sha256Crypto Fixture.standInEcc
         Fixture.standInCodec (Fixture.acceptingNode 2106) Fixture.utxo
         Fixture.info Fixture.privKey "bcrt1q-destination" 500 tt
       = inr "accepted"%string.
Proof.
  edestruct (@spendCltvLeaf_builds_at_any_height Fixture.sha256Crypto
               Fixture.standInEcc Fixture.standInCodec Fixture.utxo
               Fixture.info Fixture.privKey "bcrt1q-destination"%string
               500%Z tt)
    as [Hbuild [Hlock [Hseq [_ [Hwit Hsend]]]]].
  - vm_compute. reflexivity.
  - vm_compute. reflexivity.
  - vm_compute. reflexivity.
  - reflexivity.
  - reflexivity.
  - vm_compute. reflexivity.
  - vm_compute. reflexivity.
  - eexists. eexists. eexists. split; [exact Hbuild|].
    split; [exact Hlock|]. split; [exact Hseq|]. split; [exact Hwit|].
    rewrite Hsend. reflexivity.
Defined.

Lemma spendCltvLeaf_not_rejected_below_lock_height :
  getBlockCount (Fixture.acceptingNode 2105)
  = (lockHeight Fixture.info - 1)%Z
  /\ @spendCltvLeaf Fixture.sha256Crypto Fixture.standInEcc
       Fixture.standInCodec (Fixture.acceptingNode 2105) Fixture.utxo
       Fixture.info Fixture.privKey "bcrt1q-destination" 500 tt
     = inr "accepted"%string
  /\ exists tx,
       @cltvSpendTx Fixture.sha256Crypto Fixture.standInEcc
         Fixture.standInCodec Fixture.utxo Fixture.info Fixture.privKey
         "bcrt1q-destination" 500 tt = inr tx
       /\ map (fun i => length (witness i)) (ins tx) = [3%nat].
Proof.
  split; [reflexivity|]. split; [vm_compute; reflexivity|].
  eexists. split; vm_compute; reflexivity.
Qed.

Lemma scriptPathSpend_takes_any_signatures_witness :
  exists tx cb,
    @scriptPathSpendTx Fixture.sha256Crypto Fixture.standInCodec
      Fixture.utxo Fixture.info 0 [Fixture.sig0; Fixture.sig1; []]
      "bcrt1q-destination" 500 tt = inr tx
    /\ map (@witness) (ins tx)
       = [[Some Fixture.sig0; Some Fixture.sig1; Some [];
           Some Fixture.leaf1; Some cb]]
    /\ @buildAndBroadcastScriptPathSpend Fixture.sha256Crypto
         Fixture.standInCodec (Fixture.acceptingNode 2000) Fixture.utxo
         Fixture.info 0 [Fixture.sig0; Fixture.sig1; []]
         "bcrt1q-destination" 500 tt
       = inr "accepted"%string.
Proof.
  edestruct (@scriptPathSpend_takes_any_signatures Fixture.sha256Crypto
               Fixture.standInCodec Fixture.utxo Fixture.info 0%Z
               [Fixture.sig0; Fixture.sig1; []]
               "bcrt1q-destination"%string 500%Z tt)
    as [Hbuild [Hwit Hsend]].
  - vm_compute. reflexivity.
  - reflexivity.
  - vm_compute. reflexivity.
  - vm_compute. reflexivity.
  - reflexivity.
  - reflexivity.
  - eexists. eexists. split; [exact Hbuild|]. split; [exact Hwit|].
    rewrite Hsend. reflexivity.
Defined.

Lemma scriptPathSpend_one_signature_not_rejected :
  @buildAndBroadcastScriptPathSpend Fixture.sha256Crypto
    Fixture.standInCodec (Fixture.acceptingNode 2000) Fixture.utxo
    Fixture.info 0 [Fixture.sig0] "bcrt1q-destination" 500 tt
  = inr "accepted"%string
  /\ (exists tx cb,
        @scriptPathSpendTx Fixture.sha256Crypto Fixture.standInCodec
          Fixture.utxo Fixture.info 0 [Fixture.sig0] "bcrt1q-destination"
          500 tt = inr tx
        /\ map (@witness) (ins tx)
           = [[Some Fixture.sig0; Some Fixture.leaf1; Some cb]])
  /\ (exists tx cb,
        @scriptPathSpendTx Fixture.sha256Crypto Fixture.standInCodec
          Fixture.utxo Fixture.info 0 [[x00]] "bcrt1q-destination"
          500 tt = inr tx
        /\ map (@witness) (ins tx)
           = [[Some [x00]; Some Fixture.leaf1; Some cb]]).
Proof.
  split; [vm_compute; reflexivity|].
  split; eexists; eexists; split; vm_compute; reflexivity.
Qed.

(** * Further properties *)

Section PathProperties.

Context {crypto : Crypto}.

Lemma tapBranchHash_sym (a b : Buffer) :
  tapBranchHash a b = tapBranchHash b a.
Proof.
  unfold tapBranchHash. rewrite (Buffer_compare_antisym a b).
  destruct (Buffer_compare_range a b) as [H | [H | H]]; rewrite H; simpl;
    try reflexivity.
  rewrite (Buffer_compare_eq _ _ H). reflexivity.
Qed.

(** The node at position [k] of the next layer: the branch of the pair at
    [2k], [2k+1], or the hash at [2k] carried over when it has no pair. *)
Lemma nextLayer_nth (layer : list Buffer) (k : nat) :
  nth_error (nextLayer layer) k
  = match nth_error layer (2 * k) with
    | None => None
    | Some x =>
        match nth_error layer (2 * k + 1) with
        | Some y => Some (tapBranchHash x y)
        | None => Some x
        end
    end.
Proof.
  revert k. induction layer as [|a|a b rest IH] using list_pair_ind;
    intros k.
  - destruct k; reflexivity.
  - destruct k as [|k]; [reflexivity|]. simpl.
    replace (k + S (k + 0))%nat with (S (2 * k)) by lia.
    destruct k; reflexivity.
  - destruct k as [|k]; [reflexivity|].
    simpl nextLayer. simpl nth_error at 1. rewrite IH.
    replace (2 * S k)%nat with (S (S (2 * k))) by lia.
    replace (S (S (2 * k)) + 1)%nat with (S (S (2 * k + 1))) by lia.
    reflexivity.
Qed.

Lemma reduceLayers_step (layer : list Buffer) :
  (2 <= length layer)%nat ->
  reduceLayers layer = reduceLayers (nextLayer layer).
Proof.
  destruct layer as [|a [|b rest]]; simpl; try lia.
  intros _. simp reduceLayers. reflexivity.
Qed.

(** The loop of the control block and the loop of the root walk the same
    layers: from the hash at the target index, branching with the recorded
    siblings in order gives the hash the reduction ends with. *)
Lemma siblingPath_reaches_root (idx : Z) (layer : list Buffer)
    (path : list (option Buffer)) :
  (0 <= idx < Z.of_nat (length layer))%Z ->
  exists siblings node root,
    siblingPath idx layer path = path ++ map Some siblings
    /\ nth_error layer (Z.to_nat idx) = Some node
    /\ reduceLayers layer = [root]
    /\ fold_left tapBranchHash siblings node = root.
Proof.
  funelim (siblingPath idx layer path); intros Hidx.
  - simpl in Hidx. lia.
  - simpl in Hidx. assert (idx = 0%Z) by lia. subst idx.
    exists [], b, b. rewrite app_nil_r. simp reduceLayers. auto.
  - remember (a :: b :: rest) as layer eqn:Hlayer.
    assert (Hlen2 : (2 <= length layer)%nat) by (subst layer; simpl; lia).
    remember (if Z.rem idx 2 =? 0 then idx + 1 else idx - 1)%Z as pairIndex
      eqn:Hpair.
    assert (Hnext : (0 <= idx / 2 < Z.of_nat (length (nextLayer layer)))%Z).
    { rewrite nextLayer_length, Nat.div2_div, Nat2Z.inj_div.
      rewrite Nat2Z.inj_succ. simpl Z.of_nat.
      Z.to_euclidean_division_equations. lia. }
    destruct (H Hnext) as [siblings [node' [root [Hs [Hnode' [Hroot Hfold]]]]]].
    rewrite Hs. rewrite reduceLayers_step by assumption. rewrite Hroot.
    rewrite nextLayer_nth in Hnode'.
    pose proof (Z.rem_mod_nonneg idx 2 (proj1 Hidx) ltac:(lia)) as Hrem.
    pose proof (Z.div_mod idx 2 ltac:(lia)) as Hdm.
    pose proof (Z.mod_pos_bound idx 2 ltac:(lia)) as Hmod.
    assert (Hq : (0 <= idx / 2)%Z) by lia.
    destruct (Z.eqb_spec (Z.rem idx 2) 0) as [Heven | Hodd].
    + (* the target is the left node of its pair *)
      assert (Hk : Z.to_nat idx = (2 * Z.to_nat (idx / 2))%nat) by lia.
      rewrite Hk.
      destruct (nth_error layer (2 * Z.to_nat (idx / 2))) as [x|] eqn:Ex;
        [|discriminate].
      destruct (Z.ltb_spec pairIndex (Z.of_nat (length layer))) as [Hin | Hout].
      * assert (Ey : js_index layer pairIndex
                     = nth_error layer (2 * Z.to_nat (idx / 2) + 1)).
        { unfold js_index. destruct (Z.ltb_spec pairIndex 0); [lia|].
          f_equal. lia. }
        destruct (nth_error layer (2 * Z.to_nat (idx / 2) + 1)) as [y|] eqn:Ey'.
        -- injection Hnode' as <-.
           exists (y :: siblings), x, root. rewrite Ey, <- app_assoc.
           repeat split; auto.
        -- apply nth_error_None in Ey'. lia.
      * destruct (nth_error layer (2 * Z.to_nat (idx / 2) + 1)) as [y|] eqn:Ey'.
        -- assert (2 * Z.to_nat (idx / 2) + 1 < length layer)%nat
             by (apply nth_error_Some; congruence).
           lia.
        -- injection Hnode' as <-.
           exists siblings, x, root. repeat split; auto.
    + (* the target is the right node of its pair *)
      assert (Hk : Z.to_nat idx = (2 * Z.to_nat (idx / 2) + 1)%nat) by lia.
      rewrite Hk.
      assert (Hin : (pairIndex < Z.of_nat (length layer))%Z) by lia.
      destruct (Z.ltb_spec pairIndex (Z.of_nat (length layer))); [|lia].
      assert (Ex : js_index layer pairIndex
                   = nth_error layer (2 * Z.to_nat (idx / 2))).
      { unfold js_index. destruct (Z.ltb_spec pairIndex 0); [lia|].
        f_equal. lia. }
      destruct (nth_error layer (2 * Z.to_nat (idx / 2))) as [x|] eqn:Ex';
        [|discriminate].
      destruct (nth_error layer (2 * Z.to_nat (idx / 2) + 1)) as [y|] eqn:Ey'.
      * injection Hnode' as <-.
        exists (x :: siblings), y, root. rewrite Ex, <- app_assoc.
        repeat split; auto. simpl. rewrite (tapBranchHash_sym y x). exact Hfold.
      * apply nth_error_None in Ey'. lia.
Qed.

Lemma map_Some_inj (A : Type) (l1 l2 : list A) :
  map Some l1 = map Some l2 -> l1 = l2.
Proof.
  revert l2. induction l1 as [|x l1 IH]; intros [|y l2] H; simpl in H;
    try discriminate; auto.
  injection H as -> H. f_equal. auto.
Qed.

(** X1.  For a 33-byte key, two or more leaves and an index that names a
    leaf, the siblings written in the control block lead from the hash of
    that leaf to the Merkle root: branching with them in order gives the
    value [computeMerkleRoot] returns for the same leaves. *)
Theorem controlBlock_path_recomputes_root
    (H32 : forall tag m, length (taggedHash tag m) = 32%nat)
    (internalPubkeyFull : Buffer) (scriptLeaves : list Buffer)
    (targetIndex : Z) :
  length internalPubkeyFull = 33%nat ->
  (2 <= length scriptLeaves)%nat ->
  (0 <= targetIndex < Z.of_nat (length scriptLeaves))%Z ->
  exists (siblings : list Buffer) (leaf root : Buffer),
    computeControlBlockForIndex internalPubkeyFull scriptLeaves targetIndex
    = inr (Buffer_from [Z.lor 0xc0 (keyParity internalPubkeyFull)]
           ++ slice 1 33 internalPubkeyFull ++ concat siblings)
    /\ Forall (fun s => length s = 32%nat) siblings
    /\ js_index scriptLeaves targetIndex = Some leaf
    /\ computeMerkleRoot scriptLeaves = Some root
    /\ fold_left tapBranchHash siblings (tapLeafHash leaf) = root.
Proof.
  intros Hkey Hmany Hidx.
  destruct (@siblingPath_reaches_root targetIndex
              (map tapLeafHash scriptLeaves) [])
    as [siblings [node [root [Hpath [Hnode [Hroot Hfold]]]]]].
  { rewrite length_map. exact Hidx. }
  destruct (@siblingPath_in_range _ (fun s => length s = 32%nat) targetIndex
              (map tapLeafHash scriptLeaves) [])
    as [siblings' [Hpath' Hsibs]].
  { apply taggedHash_branch_length, H32. }
  { rewrite length_map. exact Hidx. }
  { apply Forall_map, Forall_forall. intros s _. apply H32. }
  assert (siblings' = siblings).
  { apply map_Some_inj. simpl in Hpath, Hpath'. congruence. }
  subst siblings'.
  rewrite nth_error_map in Hnode.
  destruct (nth_error scriptLeaves (Z.to_nat targetIndex)) as [leaf|] eqn:Eleaf;
    [|discriminate].
  injection Hnode as <-.
  exists siblings, leaf, root. repeat split; auto.
  - unfold computeControlBlockForIndex. rewrite Hkey. cbv zeta.
    change (negb (33 =? 33)%nat) with false. cbv iota. rewrite length_map.
    destruct (Nat.eqb_spec (length scriptLeaves) 1); [lia|].
    rewrite Hpath. simpl. rewrite Buffer_concat_somes. reflexivity.
  - unfold js_index. destruct (Z.ltb_spec targetIndex 0); [lia|]. exact Eleaf.
  - unfold computeMerkleRoot, computeMerkleRootFromLeafHashes. cbv zeta.
    rewrite length_map.
    destruct (Nat.eqb_spec (length scriptLeaves) 1); [lia|].
    destruct (Nat.eqb_spec (length scriptLeaves) 0); [lia|].
    rewrite Hroot. reflexivity.
Qed.

(** Whatever the index, the loop only adds to the path it was given. *)
Lemma siblingPath_extends (idx : Z) (layer : list Buffer)
    (path : list (option Buffer)) :
  exists added, siblingPath idx layer path = path ++ added.
Proof.
  funelim (siblingPath idx layer path).
  - exists []. rewrite app_nil_r. reflexivity.
  - exists []. rewrite app_nil_r. reflexivity.
  - destruct H as [added Hadded]. rewrite Hadded.
    destruct (_ <? _)%Z.
    + exists (js_index (a :: b :: rest)
                (if (Z.rem idx 2 =? 0)%Z then (idx + 1)%Z else (idx - 1)%Z)
              :: added).
      rewrite <- app_assoc. reflexivity.
    + exists added. reflexivity.
Qed.

(** On an index that is not negative the loop records only hashes. *)
Lemma siblingPath_nonneg (idx : Z) (layer : list Buffer)
    (path : list (option Buffer)) :
  (0 <= idx)%Z ->
  exists siblings, siblingPath idx layer path = path ++ map Some siblings.
Proof.
  funelim (siblingPath idx layer path); intros Hidx.
  - exists []. rewrite app_nil_r. reflexivity.
  - exists []. rewrite app_nil_r. reflexivity.
  - remember (a :: b :: rest) as layer eqn:Hlayer.
    remember (if Z.rem idx 2 =? 0 then idx + 1 else idx - 1)%Z as pairIndex
      eqn:Hpair.
    assert (Hpos : (0 <= pairIndex)%Z).
    { subst pairIndex. destruct (Z.eqb_spec (Z.rem idx 2) 0) as [|Hodd]; [lia|].
      assert (idx <> 0)%Z by (intros ->; apply Hodd; reflexivity). lia. }
    assert (Hnext : (0 <= idx / 2)%Z) by (apply Z.div_pos; lia).
    destruct (H Hnext) as [siblings Hs]. rewrite Hs.
    destruct (Z.ltb_spec pairIndex (Z.of_nat (length layer))).
    + destruct (@js_index_in_range _ layer pairIndex) as [x [Hx _]]; [lia|].
      exists (x :: siblings). rewrite Hx, <- app_assoc. reflexivity.
    + exists siblings. reflexivity.
Qed.

(** On a negative index and two hashes or more, the first thing recorded
    is [undefined]. *)
Lemma siblingPath_negative (idx : Z) (layer : list Buffer) :
  (idx < 0)%Z -> (2 <= length layer)%nat ->
  exists added, siblingPath idx layer [] = None :: added.
Proof.
  intros Hidx Hlen. destruct layer as [|a [|b rest]]; simpl in Hlen; try lia.
  simp siblingPath. cbv zeta.
  set (pairIndex := (if Z.rem idx 2 =? 0 then idx + 1 else idx - 1)%Z).
  assert (Hneg : (pairIndex < 0)%Z).
  { subst pairIndex. destruct (Z.eqb_spec (Z.rem idx 2) 0) as [Heven|]; [|lia].
    assert (idx <> -1)%Z by (intros ->; discriminate Heven). lia. }
  destruct (Z.ltb_spec pairIndex (Z.of_nat (length (a :: b :: rest))));
    [|simpl length in *; lia].
  assert (Hundef : js_index (a :: b :: rest) pairIndex = None).
  { unfold js_index. destruct (Z.ltb_spec pairIndex 0); [reflexivity | lia]. }
  rewrite Hundef.
  destruct (siblingPath_extends (idx / 2) (nextLayer (a :: b :: rest))
              ([] ++ [None])) as [added Hadded].
  rewrite Hadded. exists added. reflexivity.
Qed.

(** X2.  When [computeControlBlockForIndex] throws and when it does not.
    A key that is not 33 bytes long is refused with the message of the
    function.  With a 33-byte key, a negative index on two leaves or more
    makes the final concatenation throw a TypeError; in every other case
    (an index that is not negative, whether or not it names a leaf, or at
    most one leaf) a control block is returned. *)
Theorem computeControlBlockForIndex_throws_exactly
    (internalPubkeyFull : Buffer) (scriptLeaves : list Buffer)
    (targetIndex : Z) :
  (length internalPubkeyFull <> 33%nat ->
   computeControlBlockForIndex internalPubkeyFull scriptLeaves targetIndex
   = inl (Error "internalPubkeyFull must be 33-byte compressed public key"))
  /\ (length internalPubkeyFull = 33%nat ->
      (targetIndex < 0)%Z -> (2 <= length scriptLeaves)%nat ->
      computeControlBlockForIndex internalPubkeyFull scriptLeaves targetIndex
      = inl (TypeError
               "list argument must be an instance of Buffer or Uint8Array"))
  /\ (length internalPubkeyFull = 33%nat ->
      ((0 <= targetIndex)%Z \/ (length scriptLeaves <= 1)%nat) ->
      exists siblings : list Buffer,
        computeControlBlockForIndex internalPubkeyFull scriptLeaves
          targetIndex
        = inr (Buffer_from [Z.lor 0xc0 (keyParity internalPubkeyFull)]
               ++ slice 1 33 internalPubkeyFull ++ concat siblings)).
Proof.
  unfold computeControlBlockForIndex. cbv zeta. rewrite length_map.
  split; [|split].
  - intros Hkey. destruct (Nat.eqb_spec (length internalPubkeyFull) 33);
      [contradiction | reflexivity].
  - intros Hkey Hneg Hmany. rewrite Hkey.
    change (negb (33 =? 33)%nat) with false. cbv iota.
    destruct (Nat.eqb_spec (length scriptLeaves) 1); [lia|].
    destruct (@siblingPath_negative targetIndex
                (map tapLeafHash scriptLeaves)) as [added Hadded]; auto.
    { rewrite length_map. exact Hmany. }
    rewrite Hadded. reflexivity.
  - intros Hkey Hcase. rewrite Hkey.
    change (negb (33 =? 33)%nat) with false. cbv iota.
    destruct (Nat.eqb_spec (length scriptLeaves) 1) as [Hone|Hnot].
    + exists []. reflexivity.
    + assert (Hpath : exists siblings,
                siblingPath targetIndex (map tapLeafHash scriptLeaves) []
                = map Some siblings).
      { destruct Hcase as [Hpos | Hfew].
        - destruct (@siblingPath_nonneg targetIndex
                      (map tapLeafHash scriptLeaves) [] Hpos) as [s Hs].
          exists s. exact Hs.
        - destruct scriptLeaves as [|a [|b rest]]; simpl in *; try lia.
          exists []. simp siblingPath. reflexivity. }
      destruct Hpath as [siblings Hs]. exists siblings. rewrite Hs.
      simpl. rewrite Buffer_concat_somes. reflexivity.
Qed.

(** X3.  Neither root function ever returns [undefined].  On a single hash
    [computeMerkleRootFromLeafHashes] returns that hash, where
    [computeMerkleRoot] on a single leaf returns the empty buffer. *)
Theorem merkle_root_is_never_undefined (scriptLeaves leafHashArr : list Buffer) :
  (exists root, computeMerkleRoot scriptLeaves = Some root)
  /\ (exists root, computeMerkleRootFromLeafHashes leafHashArr = Some root)
  /\ (forall h, computeMerkleRootFromLeafHashes [h] = Some h)
  /\ (forall s, computeMerkleRoot [s] = Some []).
Proof.
  assert (Hany : forall hashes,
            exists root, computeMerkleRootFromLeafHashes hashes = Some root).
  { intros hashes. unfold computeMerkleRootFromLeafHashes.
    destruct hashes as [|h hashes]; [exists []; reflexivity|].
    destruct (@reduceLayers_single _ (fun _ => True) (h :: hashes))
      as [r [Hr _]]; auto.
    - discriminate.
    - apply Forall_forall. auto.
    - exists r. simpl length. cbv iota beta. rewrite Hr. reflexivity. }
  split; [|split; [apply Hany | split]].
  - unfold computeMerkleRoot. cbv zeta.
    destruct (_ =? 1)%nat; [exists []; reflexivity | apply Hany].
  - intros h. unfold computeMerkleRootFromLeafHashes. simpl.
    simp reduceLayers. reflexivity.
  - reflexivity.
Qed.

Lemma nextLayer_swap_pair (before after : list Buffer) (a b : Buffer) :
  Nat.even (length before) = true ->
  nextLayer (before ++ a :: b :: after) = nextLayer (before ++ b :: a :: after).
Proof.
  induction before as [|x|x y before IH] using list_pair_ind; intros Heven.
  - simpl. rewrite (tapBranchHash_sym a b). reflexivity.
  - discriminate Heven.
  - simpl. rewrite IH by exact Heven. reflexivity.
Qed.

(** X4.  Exchanging the two leaves of a pair (the leaves at positions 2k
    and 2k+1) does not change the Merkle root. *)
Theorem computeMerkleRoot_pair_order (before after : list Buffer)
    (a b : Buffer) :
  Nat.even (length before) = true ->
  computeMerkleRoot (before ++ a :: b :: after)
  = computeMerkleRoot (before ++ b :: a :: after).
Proof.
  intros Heven. unfold computeMerkleRoot, computeMerkleRootFromLeafHashes.
  cbv zeta. rewrite !map_app. simpl map. rewrite !length_app. simpl length.
  destruct (_ =? 1)%nat; [reflexivity|].
  destruct (_ =? 0)%nat; [reflexivity|].
  rewrite (reduceLayers_step (map tapLeafHash before
             ++ tapLeafHash a :: tapLeafHash b :: map tapLeafHash after))
    by (rewrite length_app; simpl; lia).
  rewrite (reduceLayers_step (map tapLeafHash before
             ++ tapLeafHash b :: tapLeafHash a :: map tapLeafHash after))
    by (rewrite length_app; simpl; lia).
  rewrite nextLayer_swap_pair by (rewrite length_map; exact Heven).
  reflexivity.
Qed.

(** X5.  With three leaves the third is carried over, not paired: the root
    is the branch of (the branch of the first two leaf hashes) and the
    third leaf hash, the control block of the third leaf holds one sibling
    and the control block of the first holds two. *)
Theorem three_leaves_are_unbalanced
    (internalPubkeyFull a b c : Buffer) :
  length internalPubkeyFull = 33%nat ->
  let header := Buffer_from [Z.lor 0xc0 (keyParity internalPubkeyFull)] in
  let internalX := slice 1 33 internalPubkeyFull in
  computeMerkleRoot [a; b; c]
  = Some (tapBranchHash (tapBranchHash (tapLeafHash a) (tapLeafHash b))
            (tapLeafHash c))
  /\ computeControlBlockForIndex internalPubkeyFull [a; b; c] 2
     = inr (header ++ internalX
            ++ tapBranchHash (tapLeafHash a) (tapLeafHash b))
  /\ computeControlBlockForIndex internalPubkeyFull [a; b; c] 0
     = inr (header ++ internalX ++ tapLeafHash b ++ tapLeafHash c).
Proof.
  intros Hkey header internalX. split; [|split].
  - unfold computeMerkleRoot, computeMerkleRootFromLeafHashes. simpl.
    simp reduceLayers. simpl. simp reduceLayers. simpl. simp reduceLayers.
    reflexivity.
  - unfold computeControlBlockForIndex. rewrite Hkey. cbv zeta.
    change (negb (33 =? 33)%nat) with false. cbv iota. simpl map.
    simpl length. change (3 =? 1)%nat with false. cbv iota.
    simp siblingPath. simpl. simp siblingPath. simpl. simp siblingPath.
    simpl. rewrite app_nil_r. reflexivity.
  - unfold computeControlBlockForIndex. rewrite Hkey. cbv zeta.
    change (negb (33 =? 33)%nat) with false. cbv iota. simpl map.
    simpl length. change (3 =? 1)%nat with false. cbv iota.
    simp siblingPath. simpl. simp siblingPath. simpl. simp siblingPath.
    simpl. rewrite app_nil_r. reflexivity.
Qed.

End PathProperties.

(** ** Keys *)

Lemma string_pair_ind (P : string -> Prop) :
  P EmptyString -> (forall c, P (String c EmptyString)) ->
  (forall c d s, P s -> P (String c (String d s))) ->
  forall s, P s.
Proof.
  intros Hnil Hone Hstep.
  fix IH 1. intros [|c [|d s]]; [exact Hnil | apply Hone | apply Hstep, IH].
Qed.

Lemma hex_pair_of_byte (x : byte) :
  hex_digit (hex_char (Byte.to_N x / 16)) = Some (Byte.to_N x / 16)%N
  /\ hex_digit (hex_char (Byte.to_N x mod 16)) = Some (Byte.to_N x mod 16)%N
  /\ byte_of_N (16 * (Byte.to_N x / 16) + Byte.to_N x mod 16) = x.
Proof. destruct x; vm_compute; auto. Qed.

Lemma Buffer_from_hex_toString (b : Buffer) :
  Buffer_from_hex (Buffer_toString_hex b) = b.
Proof.
  induction b as [|x b IH]; [reflexivity|].
  destruct (hex_pair_of_byte x) as [Hhi [Hlo Hx]].
  cbn [Buffer_toString_hex Buffer_from_hex]. rewrite Hhi, Hlo, Hx, IH.
  reflexivity.
Qed.

Lemma all_hex_toString (b : Buffer) : all_hex (Buffer_toString_hex b) = true.
Proof.
  induction b as [|x b IH]; [reflexivity|].
  destruct (hex_pair_of_byte x) as [Hhi [Hlo _]].
  cbn [Buffer_toString_hex all_hex]. unfold is_hex_digit.
  rewrite Hhi, Hlo, IH. reflexivity.
Qed.

Lemma all_hex_app (s t : string) :
  all_hex (s ++ t) = all_hex s && all_hex t.
Proof.
  induction s as [|c s IH]; simpl; [reflexivity|].
  rewrite IH, andb_assoc. reflexivity.
Qed.

Lemma Buffer_from_hex_odd (s : string) (c : Ascii.ascii) :
  all_hex s = true -> Nat.even (String.length s) = true ->
  Buffer_from_hex (s ++ String c EmptyString) = Buffer_from_hex s.
Proof.
  induction s as [|d|d e s IH] using string_pair_ind; intros Hhex Heven.
  - reflexivity.
  - discriminate Heven.
  - cbn [all_hex] in Hhex. apply andb_prop in Hhex as [Hd Hrest].
    apply andb_prop in Hrest as [He Hrest].
    unfold is_hex_digit in Hd, He.
    cbn [String.append Buffer_from_hex].
    destruct (hex_digit d); [|discriminate].
    destruct (hex_digit e); [|discriminate].
    rewrite IH; auto.
Qed.

Lemma hex_regex_test_all_hex (s : string) :
  hex_regex_test s = true -> all_hex s = true /\ s <> EmptyString.
Proof. destruct s; simpl; [discriminate|]. intros H. split; [exact H | discriminate]. Qed.

(** The shape of a key that passed the checks. *)
Lemma validated_key_shape (pubkeyHex : string)
    (pubkey : Buffer) :
  validatePubkeyHex pubkeyHex = inr pubkey ->
  length pubkey = 32%nat
  \/ (length pubkey = 33%nat
      /\ (nth_error pubkey 0 = Some x02 \/ nth_error pubkey 0 = Some x03)).
Proof.
  unfold validatePubkeyHex. cbv zeta.
  destruct (hex_regex_test pubkeyHex); cbv [negb throw ret]; [|discriminate].
  destruct (Nat.eqb_spec (length (Buffer_from_hex pubkeyHex)) 33) as [H33|_].
  - destruct (nth_error (Buffer_from_hex pubkeyHex) 0) as [p|] eqn:Ep;
      cbv [throw ret]; [|discriminate].
    destruct p; cbv [throw ret]; try discriminate; intros H;
      injection H as <-; auto.
  - destruct (Nat.eqb_spec (length (Buffer_from_hex pubkeyHex)) 32) as [H32|_];
      [|discriminate].
    intros H; injection H as <-. auto.
Qed.

(** X6.  What [validatePubkeyHex] returns is the decoding of its argument,
    and it is a key of 32 bytes, or of 33 bytes that start with 0x02 or
    0x03; the argument was a non-empty string of hexadecimal digits. *)
Theorem validatePubkeyHex_returns_a_key (pubkeyHex : string) (pubkey : Buffer) :
  validatePubkeyHex pubkeyHex = inr pubkey ->
  pubkey = Buffer_from_hex pubkeyHex
  /\ hex_regex_test pubkeyHex = true
  /\ (length pubkey = 32%nat
      \/ (length pubkey = 33%nat
          /\ (nth_error pubkey 0 = Some x02 \/ nth_error pubkey 0 = Some x03))).
Proof.
  unfold validatePubkeyHex. cbv zeta.
  destruct (hex_regex_test pubkeyHex); cbv [negb throw ret]; [|discriminate].
  destruct (Nat.eqb_spec (length (Buffer_from_hex pubkeyHex)) 33) as [H33|_].
  - destruct (nth_error (Buffer_from_hex pubkeyHex) 0) as [p|] eqn:Ep;
      cbv [throw ret]; [|discriminate].
    destruct p; cbv [throw ret]; try discriminate; intros H;
      injection H as <-; repeat split; auto.
  - destruct (Nat.eqb_spec (length (Buffer_from_hex pubkeyHex)) 32) as [H32|_];
      [|discriminate].
    intros H; injection H as <-. repeat split; auto.
Qed.

(** X7.  Round trip: the hexadecimal text of a 32-byte key, or of a
    33-byte key that starts with 0x02 or 0x03, is accepted and gives the
    key back. *)
Theorem validatePubkeyHex_round_trip (pubkey : Buffer) :
  length pubkey = 32%nat
  \/ (length pubkey = 33%nat
      /\ (nth_error pubkey 0 = Some x02 \/ nth_error pubkey 0 = Some x03)) ->
  validatePubkeyHex (Buffer_toString_hex pubkey) = inr pubkey.
Proof.
  intros Hkey. unfold validatePubkeyHex. cbv zeta.
  assert (Htest : hex_regex_test (Buffer_toString_hex pubkey) = true).
  { pose proof (all_hex_toString pubkey) as Hall.
    destruct pubkey as [|x pubkey]; [destruct Hkey as [H|[H _]]; discriminate H|].
    exact Hall. }
  rewrite Htest, Buffer_from_hex_toString. simpl negb. cbv iota.
  destruct Hkey as [H32 | [H33 Hprefix]].
  - rewrite H32. reflexivity.
  - rewrite H33. change (33 =? 33)%nat with true. cbv iota.
    destruct Hprefix as [-> | ->]; reflexivity.
Qed.

(** X8.  A trailing odd digit is ignored: after a non-empty string of an
    even number of hexadecimal digits, one more hexadecimal digit changes
    nothing, so that a key followed by a stray digit (65 or 67 digits) is
    accepted as that key. *)
Theorem validatePubkeyHex_ignores_odd_digit (pubkeyHex : string)
    (c : Ascii.ascii) :
  hex_regex_test pubkeyHex = true ->
  Nat.even (String.length pubkeyHex) = true ->
  is_hex_digit c = true ->
  validatePubkeyHex (pubkeyHex ++ String c EmptyString)
  = validatePubkeyHex pubkeyHex.
Proof.
  intros Htest Heven Hc.
  destruct (hex_regex_test_all_hex _ Htest) as [Hall Hne].
  unfold validatePubkeyHex. cbv zeta.
  rewrite Buffer_from_hex_odd by assumption. rewrite Htest.
  assert (Htest' : hex_regex_test (pubkeyHex ++ String c EmptyString) = true).
  { destruct pubkeyHex as [|d s]; [congruence|].
    change (all_hex (String d s ++ String c EmptyString) = true).
    rewrite all_hex_app, Hall. simpl. rewrite Hc. reflexivity. }
  rewrite Htest'. reflexivity.
Qed.

(** X9.  Every key that [validatePubkeyHex] returns is accepted by
    [ensureCompressedPubkey], which gives a 33-byte key with the same 32
    bytes after the prefix: a 33-byte key unchanged, a 32-byte key behind
    the prefix 0x02, so that its parity reads as even. *)
Theorem ensureCompressedPubkey_of_validated_key (pubkeyHex : string)
    (pubkey : Buffer) :
  validatePubkeyHex pubkeyHex = inr pubkey ->
  exists full,
    ensureCompressedPubkey pubkey = inr full
    /\ length full = 33%nat
    /\ (nth_error full 0 = Some x02 \/ nth_error full 0 = Some x03)
    /\ (length pubkey = 33%nat -> full = pubkey)
    /\ (length pubkey = 32%nat ->
        full = x02 :: pubkey /\ slice 1 33 full = pubkey
        /\ keyParity full = 0%Z).
Proof.
  intros Hvalid.
  destruct (validated_key_shape _ Hvalid)
    as [H32 | [H33 Hprefix]].
  - exists (x02 :: pubkey). unfold ensureCompressedPubkey. rewrite H32.
    split; [reflexivity|]. split; [simpl; lia|]. split; [left; reflexivity|].
    split; [intros; lia|]. intros _. split; [reflexivity|].
    split; [|reflexivity].
    change (slice 1 33 (x02 :: pubkey)) with (firstn 32 pubkey).
    apply firstn_all2. lia.
  - exists pubkey. unfold ensureCompressedPubkey. rewrite H33.
    split; [reflexivity|]. split; [reflexivity|]. split; [exact Hprefix|].
    split; [reflexivity|]. intros; lia.
Qed.

(** ** The output and its spends *)

Section OutputProperties.

Context {crypto : Crypto} {ecc : Ecc} {codec : TxCodec}
        {scripts : ScriptLib codec}.

(** X10.  What [createTaprootAddress] returns, when it returns: it was
    given three keys; the lock height is the current height plus the delta;
    the internal key is 33 bytes long (the chosen key itself, or the chosen
    32-byte key behind 0x02) and [internalX] is its 32 bytes after the
    prefix; there are two leaves, the Merkle root is the branch of their
    two leaf hashes, and the control block of each leaf is the header, the
    internal key and the hash of the other leaf. *)
Theorem createTaprootAddress_returns_consistent_info
    (pubkeys : list Buffer) (currentBlockHeight : Z) (network : Network)
    (lockDeltaBlocks : Z) (internalKeyOptionally : option Buffer)
    (info : TaprootInfo) :
  createTaprootAddress pubkeys currentBlockHeight network lockDeltaBlocks
    internalKeyOptionally = inr info ->
  let chosen := match internalKeyOptionally with
                | Some k => k
                | None => nth 0 pubkeys []
                end in
  let header :=
    Buffer_from [Z.lor 0xc0 (keyParity (internalPubkeyFull info))] in
  length pubkeys = 3%nat
  /\ lockHeight info = (currentBlockHeight + lockDeltaBlocks)%Z
  /\ length (internalPubkeyFull info) = 33%nat
  /\ (internalPubkeyFull info = chosen
      \/ (length chosen = 32%nat /\ internalPubkeyFull info = x02 :: chosen))
  /\ internalX info = slice 1 33 (internalPubkeyFull info)
  /\ length (internalX info) = 32%nat
  /\ exists leaf1 leaf2,
       leaves info = [leaf1; leaf2]
       /\ merkleRoot info
          = Some (tapBranchHash (tapLeafHash leaf1) (tapLeafHash leaf2))
       /\ computeControlBlockForIndex (internalPubkeyFull info)
            (leaves info) 0
          = inr (header ++ internalX info ++ tapLeafHash leaf2)
       /\ computeControlBlockForIndex (internalPubkeyFull info)
            (leaves info) 1
          = inr (header ++ internalX info ++ tapLeafHash leaf1).
Proof.
  unfold createTaprootAddress.
  destruct pubkeys as [|k0 [|k1 [|k2 [|k3 rest]]]]; try discriminate.
  cbv zeta.
  destruct (compile _) as [e | leaf1]; [discriminate|]. cbn [bind].
  destruct (compile _) as [e | leaf2]; [discriminate|]. cbn [bind].
  set (chosen := match internalKeyOptionally with
                 | Some k => k
                 | None => k0
                 end).
  assert (Hfull : forall full, ensureCompressedPubkey chosen = inr full ->
            length full = 33%nat
            /\ (full = chosen \/ (length chosen = 32%nat /\ full = x02 :: chosen))).
  { intros full. unfold ensureCompressedPubkey.
    destruct (Nat.eqb_spec (length chosen) 33) as [H33|_].
    - intros H; injection H as <-. auto.
    - destruct (Nat.eqb_spec (length chosen) 32) as [H32|_]; [|discriminate].
      intros H; injection H as <-. split; [simpl; lia | auto]. }
  destruct (ensureCompressedPubkey chosen) as [e | full]; [discriminate|].
  cbn [bind]. destruct (Hfull full eq_refl) as [Hlen Hchosen].
  destruct (p2trAddress _ _ _) as [e | addr]; [discriminate|]. cbn [bind].
  intros H. injection H as <-. cbn [nth internalPubkeyFull lockHeight
    internalX leaves merkleRoot].
  split; [reflexivity|]. split; [reflexivity|]. split; [exact Hlen|].
  split; [exact Hchosen|]. split; [reflexivity|].
  split; [apply slice_key_length; exact Hlen|].
  exists leaf1, leaf2. split; [reflexivity|].
  split; [apply computeMerkleRoot_two|].
  unfold computeControlBlockForIndex. rewrite Hlen. cbv zeta.
  change (negb (33 =? 33)%nat) with false. cbv iota. simpl map.
  simpl length. change (2 =? 1)%nat with false. cbv iota.
  rewrite !siblingPath_two by lia. simpl. rewrite !app_nil_r.
  split; reflexivity.
Qed.


(** X12.  For a tree of a single leaf the key is tweaked as if there were
    no tree: the root is empty whatever the leaf is, so the tweak is the
    tagged hash of the internal key alone and the tweaked key does not
    depend on the leaf. *)
Theorem single_leaf_does_not_enter_the_tweak
    (privKey32 internalPubkeyX leaf other : Buffer) :
  tweakPrivateKey privKey32 internalPubkeyX (computeMerkleRoot [leaf])
  = tweakPrivateKey privKey32 internalPubkeyX None
  /\ tweakPrivateKey privKey32 internalPubkeyX (computeMerkleRoot [leaf])
     = tweakPrivateKey privKey32 internalPubkeyX (computeMerkleRoot [other]).
Proof. split; reflexivity. Qed.

(** X13.  A key-path spend with a private key that is not 32 bytes long,
    or with an internal key that is not, throws the error of the tweak and
    reaches neither the codec nor the node. *)
Theorem spendKeyPath_refuses_wrong_lengths
    (rpcClient : RpcClient) (utxoObj : Utxo) (internalPrivKey32 : Buffer)
    (taprootInfo : TaprootInfo) (destination : string) (feeSats : Z)
    (network : Network) :
  (length internalPrivKey32 <> 32%nat ->
   spendKeyPath rpcClient utxoObj internalPrivKey32 taprootInfo destination
     feeSats network = inl (Error "privKey must be 32 bytes"))
  /\ (length internalPrivKey32 = 32%nat ->
      length (internalX taprootInfo) <> 32%nat ->
      spendKeyPath rpcClient utxoObj internalPrivKey32 taprootInfo
        destination feeSats network
      = inl (Error "internalPubkeyX must be 32 bytes")).
Proof.
  unfold spendKeyPath, keyPathSpendTx, tweakPrivateKey. split.
  - intros Hpriv.
    destruct (Nat.eqb_spec (length internalPrivKey32) 32);
      [contradiction | reflexivity].
  - intros Hpriv Hx. rewrite Hpriv.
    destruct (Nat.eqb_spec (length (internalX taprootInfo)) 32);
      [contradiction | reflexivity].
Qed.

(** X14.  With an internal key that is not 33 bytes long, both script-path
    spends throw the error of the control block, whatever the signatures,
    the destination and the node. *)
Theorem script_path_spends_need_a_33_byte_internal_key
    (rpcClient : RpcClient) (utxoObj : Utxo) (taprootInfo : TaprootInfo)
    (leafIndex : Z) (sigs : list Buffer) (privKey32 : Buffer)
    (destination : string) (feeSats : Z) (network : Network) :
  length (internalPubkeyFull taprootInfo) <> 33%nat ->
  buildAndBroadcastScriptPathSpend rpcClient utxoObj taprootInfo leafIndex
    sigs destination feeSats network
  = inl (Error "internalPubkeyFull must be 33-byte compressed public key")
  /\ spendCltvLeaf rpcClient utxoObj taprootInfo privKey32 destination
       feeSats network
     = inl (Error "internalPubkeyFull must be 33-byte compressed public key").
Proof.
  intros Hkey.
  unfold buildAndBroadcastScriptPathSpend, scriptPathSpendTx, spendCltvLeaf,
    cltvSpendTx, computeControlBlockForIndex.
  destruct (Nat.eqb_spec (length (internalPubkeyFull taprootInfo)) 33);
    [contradiction|].
  split; reflexivity.
Qed.

End OutputProperties.

(** ** Further runs on the fixture *)

Lemma controlBlock_path_recomputes_root_witness :
  exists (siblings : list Buffer) (leaf root : Buffer),
    @computeControlBlockForIndex Fixture.sha256Crypto Fixture.pubkey1
      [Fixture.leaf1; Fixture.leaf2; Fixture.leaf1] 2
    = inr (Buffer_from [Z.lor 0xc0 (keyParity Fixture.pubkey1)]
           ++ slice 1 33 Fixture.pubkey1 ++ concat siblings)
    /\ Forall (fun s => length s = 32%nat) siblings
    /\ js_index [Fixture.leaf1; Fixture.leaf2; Fixture.leaf1] 2 = Some leaf
    /\ @computeMerkleRoot Fixture.sha256Crypto
         [Fixture.leaf1; Fixture.leaf2; Fixture.leaf1] = Some root
    /\ fold_left (@tapBranchHash Fixture.sha256Crypto) siblings
         (@tapLeafHash Fixture.sha256Crypto leaf) = root.
Proof.
  apply (@controlBlock_path_recomputes_root Fixture.sha256Crypto
           sha256_taggedHash_length Fixture.pubkey1
           [Fixture.leaf1; Fixture.leaf2; Fixture.leaf1] 2).
  - reflexivity.
  - cbn [length]. lia.
  - cbn [length]. lia.
Defined.

Lemma computeMerkleRoot_pair_order_witness :
  Nat.even (length (@nil Buffer)) = true
  /\ @computeMerkleRoot Fixture.sha256Crypto [Fixture.leaf1; Fixture.leaf2]
     = @computeMerkleRoot Fixture.sha256Crypto [Fixture.leaf2; Fixture.leaf1].
Proof.
  split; [reflexivity|].
  exact (@computeMerkleRoot_pair_order Fixture.sha256Crypto [] []
           Fixture.leaf1 Fixture.leaf2 eq_refl).
Defined.

Lemma three_leaves_are_unbalanced_witness :
  length Fixture.pubkey1 = 33%nat
  /\ @computeControlBlockForIndex Fixture.sha256Crypto Fixture.pubkey1
       [Fixture.leaf1; Fixture.leaf2; Fixture.leaf1] 2
     = inr (Buffer_from [Z.lor 0xc0 (keyParity Fixture.pubkey1)]
            ++ slice 1 33 Fixture.pubkey1
            ++ @tapBranchHash Fixture.sha256Crypto
                 (@tapLeafHash Fixture.sha256Crypto Fixture.leaf1)
                 (@tapLeafHash Fixture.sha256Crypto Fixture.leaf2)).
Proof.
  split; [reflexivity|].
  pose proof (@three_leaves_are_unbalanced Fixture.sha256Crypto
                Fixture.pubkey1 Fixture.leaf1 Fixture.leaf2 Fixture.leaf1
                eq_refl) as H.
  cbv zeta in H. destruct H as [_ [H _]]. exact H.
Defined.

Lemma validatePubkeyHex_returns_a_key_witness :
  validatePubkeyHex
    "039d815fa419f816f701e80f6c4f50089fedf0e3d74efad96d9cdb5117930e61c0"
  = inr Fixture.pubkey1
  /\ length Fixture.pubkey1 = 33%nat
  /\ nth_error Fixture.pubkey1 0 = Some x03.
Proof.
  assert (H : validatePubkeyHex
    "039d815fa419f816f701e80f6c4f50089fedf0e3d74efad96d9cdb5117930e61c0"
    = inr Fixture.pubkey1) by (vm_compute; reflexivity).
  split; [exact H|].
  destruct (validatePubkeyHex_returns_a_key _ H) as [_ [_ Hshape]].
  split; reflexivity.
Defined.

Lemma validatePubkeyHex_round_trip_witness :
  length Fixture.pubkey1 = 33%nat
  /\ nth_error Fixture.pubkey1 0 = Some x03
  /\ Buffer_toString_hex Fixture.pubkey1
     = "039d815fa419f816f701e80f6c4f50089fedf0e3d74efad96d9cdb5117930e61c0"%string
  /\ validatePubkeyHex (Buffer_toString_hex Fixture.pubkey1)
     = inr Fixture.pubkey1.
Proof.
  split; [reflexivity|]. split; [reflexivity|].
  split; [vm_compute; reflexivity|].
  apply validatePubkeyHex_round_trip. right. split; [reflexivity|].
  right. reflexivity.
Defined.

Lemma validatePubkeyHex_ignores_odd_digit_witness :
  validatePubkeyHex
    "9d815fa419f816f701e80f6c4f50089fedf0e3d74efad96d9cdb5117930e61c0a"
  = validatePubkeyHex
      "9d815fa419f816f701e80f6c4f50089fedf0e3d74efad96d9cdb5117930e61c0"
  /\ validatePubkeyHex
       "9d815fa419f816f701e80f6c4f50089fedf0e3d74efad96d9cdb5117930e61c0"
     = inr (slice 1 33 Fixture.pubkey1).
Proof.
  split; [|vm_compute; reflexivity].
  apply (validatePubkeyHex_ignores_odd_digit
           "9d815fa419f816f701e80f6c4f50089fedf0e3d74efad96d9cdb5117930e61c0"
           (Ascii.ascii_of_nat 97)); vm_compute; reflexivity.
Defined.

Lemma ensureCompressedPubkey_of_validated_key_witness :
  exists full,
    ensureCompressedPubkey (slice 1 33 Fixture.pubkey1) = inr full
    /\ length full = 33%nat
    /\ keyParity full = 0%Z.
Proof.
  destruct (@ensureCompressedPubkey_of_validated_key
              "9d815fa419f816f701e80f6c4f50089fedf0e3d74efad96d9cdb5117930e61c0"
              (slice 1 33 Fixture.pubkey1))
    as [full [Hfull [Hlen [_ [_ H32]]]]].
  - vm_compute. reflexivity.
  - exists full. split; [exact Hfull|]. split; [exact Hlen|].
    apply H32. reflexivity.
Defined.

Lemma createTaprootAddress_returns_consistent_info_witness :
  exists info,
    @createTaprootAddress Fixture.sha256Crypto Fixture.standInCodec
      Fixture.standInScripts
      [Fixture.pubkey1; Fixture.pubkey2; Fixture.pubkey3] 106 tt 2000 None
    = inr info
    /\ lockHeight info = 2106%Z
    /\ length (internalPubkeyFull info) = 33%nat
    /\ length (internalX info) = 32%nat.
Proof.
  assert (E : exists info,
            @createTaprootAddress Fixture.sha256Crypto Fixture.standInCodec
              Fixture.standInScripts
              [Fixture.pubkey1; Fixture.pubkey2; Fixture.pubkey3] 106 tt 2000
              None = inr info)
    by (eexists; vm_compute; reflexivity).
  destruct E as [info E]. exists info. split; [exact E|].
  destruct (@createTaprootAddress_returns_consistent_info
              Fixture.sha256Crypto Fixture.standInCodec
              Fixture.standInScripts _ _ _ _ _ _ E)
    as [_ [Hlock [Hfull [_ [_ [Hx _]]]]]].
  split; [exact Hlock|]. split; [exact Hfull | exact Hx].
Defined.


Lemma script_path_spends_need_a_33_byte_internal_key_witness :
  let bad :=
    {| address := address Fixture.info;
       internalPubkeyFull := internalX Fixture.info;
       internalX := internalX Fixture.info;
       leaves := leaves Fixture.info;
       lockHeight := lockHeight Fixture.info;
       merkleRoot := merkleRoot Fixture.info |} in
  length (internalPubkeyFull bad) = 32%nat
  /\ @spendCltvLeaf Fixture.sha256Crypto Fixture.standInEcc
       Fixture.standInCodec (Fixture.acceptingNode 2200) Fixture.utxo bad
       Fixture.privKey "bcrt1q-destination" 500 tt
     = inl (Error "internalPubkeyFull must be 33-byte compressed public key").
Proof.
  intros bad. split; [reflexivity|].
  apply (@script_path_spends_need_a_33_byte_internal_key
           Fixture.sha256Crypto Fixture.standInEcc Fixture.standInCodec
           (Fixture.acceptingNode 2200) Fixture.utxo bad 0 [] Fixture.privKey
           "bcrt1q-destination"%string 500%Z tt).
  cbn [internalPubkeyFull bad]. intros H.
  assert (H32 : length (internalX Fixture.info) = 32%nat) by reflexivity.
  rewrite H32 in H. discriminate H.
Defined.
